(** * Aegis-Agent: the integrity pipeline, embedded and verified

    A shallow embedding of the parts of the Aegis file-integrity monitor
    that carry state and ordering guarantees:

    - [visualizer.py]  : [animate_hashing_process] (snapshot building) and
                         [visualize_integrity_check] (the comparator);
    - [agent.py]       : [save_baseline], [load_baseline],
                         [report_integrity_results] and the [--check]
                         branch of [main];
    - [live_monitor.py]: the [AegisFileWatcher] event handler.

    Python dictionaries are finite maps ([gmap]), Python sets are [gset],
    exceptions are an explicit error type threaded through a state-and-error
    monad, and the operating system (files, console, clock) is an explicit
    world value. *)

From Stdlib Require Import ZArith String Ascii List Sorted.
From Stdlib Require Import Floats.SpecFloat.
From stdpp Require Import gmap strings pretty list sorting.

Local Open Scope string_scope.
Local Open Scope list_scope.
Local Open Scope Z_scope.

(* ================================================================== *)
(** * Python values                                                    *)
(* ================================================================== *)

(** The scalar values a field of a baseline record can hold: what
    [os.stat], [hexdigest] and [json.load] put there.  A float is an IEEE
    binary64 value, given by [spec_float]. *)
Inductive pyval :=
  | PyNone
  | PyBool (b : bool)
  | PyInt (z : Z)
  | PyFloat (f : spec_float)
  | PyStr (s : string).

(** Python compares [bool], [int] and [float] by numeric value. *)
Inductive pynum :=
  | NumInt (z : Z)
  | NumFloat (f : spec_float).

Definition as_num (v : pyval) : option pynum :=
  match v with
  | PyBool b => Some (NumInt (if b then 1 else 0))
  | PyInt z => Some (NumInt z)
  | PyFloat f => Some (NumFloat f)
  | PyNone | PyStr _ => None
  end.

(** [int == float]: exact comparison of the integer with the value
    [(-1)^s * m * 2^e]; infinities and NaN equal no integer. *)
Definition int_float_eqb (z : Z) (f : spec_float) : bool :=
  match f with
  | S754_zero _ => Z.eqb z 0
  | S754_finite s m e =>
      let v := if s then Z.neg m else Z.pos m in
      if Z.leb 0 e then Z.eqb z (v * 2 ^ e) else Z.eqb (z * 2 ^ (- e)) v
  | S754_infinity _ | S754_nan => false
  end.

Definition num_eqb (a b : pynum) : bool :=
  match a, b with
  | NumInt x, NumInt y => Z.eqb x y
  | NumFloat x, NumFloat y => SFeqb x y
  | NumInt x, NumFloat y => int_float_eqb x y
  | NumFloat x, NumInt y => int_float_eqb y x
  end.

(** Python's [==] on these values. *)
Definition py_eq (a b : pyval) : bool :=
  match a, b with
  | PyNone, PyNone => true
  | PyStr s, PyStr t => String.eqb s t
  | _, _ =>
      match as_num a, as_num b with
      | Some x, Some y => num_eqb x y
      | _, _ => false
      end
  end.

(** Python's [!=]. *)
Definition py_ne (a b : pyval) : bool := negb (py_eq a b).

(** A record of a baseline is a [dict] from field names to values, a
    snapshot is a [dict] from paths to records. *)
Abbreviation record := (gmap string pyval).
Abbreviation snapshot := (gmap string (gmap string pyval)).

(** [d.get(key)]: the defaulting lookup, [None] when the key is absent. *)
Definition dict_get (d : record) (key : string) : pyval :=
  default PyNone (d !! key).

(* ================================================================== *)
(** * Exceptions                                                       *)
(* ================================================================== *)

Inductive exn :=
  | KeyError (key : string)
  | FileNotFoundError (path : string)
  | PermissionError (path : string)
  | IsADirectoryError (path : string)
  | UnicodeDecodeError
  | JSONDecodeError (msg : string)
  | Exception (msg : string) (cause : exn)
  | SystemExit (code : Z).

(** [except IOError]: [IOError] is [OSError], the base of the three file
    errors. *)
Definition is_IOError (e : exn) : bool :=
  match e with
  | FileNotFoundError _ | PermissionError _ | IsADirectoryError _ => true
  | _ => false
  end.

(** [except Exception]: everything but [SystemExit], which derives from
    [BaseException] only. *)
Definition is_Exception (e : exn) : bool :=
  match e with
  | SystemExit _ => false
  | _ => true
  end.

Inductive result (A : Type) :=
  | Ok (a : A)
  | Raise (e : exn).
Arguments Ok {A} a.
Arguments Raise {A} e.

#[global] Instance result_ret : MRet result := @Ok.
#[global] Instance result_bind : MBind result := fun A B f r =>
  match r with
  | Ok a => f a
  | Raise e => Raise e
  end.

(* ================================================================== *)
(** * The comparator: [visualize_integrity_check]                      *)
(* ================================================================== *)

Module Comparator.

(** The order [sorted] uses on [str]: code points, here bytes. *)
Definition str_le (s t : string) : Prop := String.leb s t = true.

#[global] Instance str_le_dec : RelDecision str_le.
Proof. intros s t. unfold str_le. apply _. Defined.

(** [sorted(iterable)] on strings. *)
Definition sorted (l : list string) : list string := merge_sort str_le l.

(** [d[k]]: raises [KeyError] when [k] is absent. *)
Definition subscript (d : snapshot) (k : string) : result record :=
  match d !! k with
  | Some r => Ok r
  | None => Raise (KeyError k)
  end.

(** [[k for k in ks if old[k].get('hash') != new[k].get('hash')]], with [ks]
    the keys in the order the set yields them. *)
Fixpoint modified_comprehension (old_baseline new_baseline : snapshot)
    (ks : list string) : result (list string) :=
  match ks with
  | [] => Ok []
  | k :: ks' =>
      ro ← subscript old_baseline k;
      rn ← subscript new_baseline k;
      rest ← modified_comprehension old_baseline new_baseline ks';
      Ok (if py_ne (dict_get ro "hash") (dict_get rn "hash")
          then k :: rest else rest)
  end.

(** The three lists the function computes before rendering them. *)
Record delta := {
  modified : list string;
  created : list string;
  deleted : list string
}.

Definition visualize_integrity_check (old_baseline new_baseline : snapshot)
    : result delta :=
  let old_keys : gset string := dom old_baseline in
  let new_keys : gset string := dom new_baseline in
  let created := sorted (elements (new_keys ∖ old_keys)) in
  let deleted := sorted (elements (old_keys ∖ new_keys)) in
  let common_keys := old_keys ∩ new_keys in
  m ← modified_comprehension old_baseline new_baseline (elements common_keys);
  Ok {| modified := sorted m; created := created; deleted := deleted |}.

(** The fourth class of the spec, never built by the code: present on both
    sides with [!=] false on the hashes. *)
Definition unchanged (old_baseline new_baseline : snapshot) (k : string) : Prop :=
  ∃ ro rn, old_baseline !! k = Some ro ∧ new_baseline !! k = Some rn ∧
           py_ne (dict_get ro "hash") (dict_get rn "hash") = false.

(** What "the content hash differs" means on the code: [!=] on the two
    defaulting lookups. *)
Definition hash_differs (old_baseline new_baseline : snapshot) (k : string) : Prop :=
  ∃ ro rn, old_baseline !! k = Some ro ∧ new_baseline !! k = Some rn ∧
           py_ne (dict_get ro "hash") (dict_get rn "hash") = true.

(** The same test as a function, as the comprehension evaluates it. *)
Definition hash_differs_b (old_baseline new_baseline : snapshot) (k : string) : bool :=
  match old_baseline !! k, new_baseline !! k with
  | Some ro, Some rn => py_ne (dict_get ro "hash") (dict_get rn "hash")
  | _, _ => false
  end.

(** Exactly one of four propositions holds. *)
Definition exactly_one (P1 P2 P3 P4 : Prop) : Prop :=
  (P1 ∧ ¬ P2 ∧ ¬ P3 ∧ ¬ P4) ∨ (¬ P1 ∧ P2 ∧ ¬ P3 ∧ ¬ P4) ∨
  (¬ P1 ∧ ¬ P2 ∧ P3 ∧ ¬ P4) ∨ (¬ P1 ∧ ¬ P2 ∧ ¬ P3 ∧ P4).

End Comparator.

(* ================================================================== *)
(** * The world: files, console, clock                                 *)
(* ================================================================== *)

(** A regular file: permission bits for the running user, its bytes, and
    the modification time [os.stat] reports. *)
Record file := {
  readable : bool;
  writable : bool;
  content : string;
  st_mtime : spec_float
}.

Inductive node :=
  | File (f : file)
  | Dir.

(** The calls [main] makes into the engine modules, recorded as they are
    made. *)
Inductive engine_call :=
  | CallGetFileList (config : string)
  | CallCreateBaseline (files : list string)
  | CallCompareBaselines.

(** What is printed on the console; one constructor per message block of
    the source, carrying the values the message interpolates. *)
Inductive line :=
  | BaselineSaved (filepath : string) (file_size : Z)
  | BaselineWriteFailed (e : exn)
  | BaselineLoaded (filepath : string) (files_tracked : nat)
  | BaselineCorrupted (e : exn)
  | ReportSecure (output_file : string)
  | ReportAlert (total_changes : nat) (modified created deleted : list string)
                (output_file : string)
  | Banner
  | CheckModeHeader (config baseline : string)
  | BaselineNotFoundOrEmpty (baseline : string)
  | RunInitFirst
  | DiscoveryComplete (n : nat)
  | CreatingSnapshot
  | SnapshotComplete (n : nat)
  | AnalyzingViolations
  | FatalError (e : exn)
  | CheckBaselineHint
  | Shutdown
  | ScanError (filepath : string) (e : exn)
  | ScanSummary (files_processed : nat) (total_bytes : Z) (output_baseline : string).

Record world := {
  fs : gmap string node;
  console : list line;
  clock : spec_float;
  calls : list engine_call
}.

(** A Python computation: it changes the world and returns or raises; the
    changes made before a raise stay. *)
Definition io (A : Type) : Type := world → world * result A.

#[global] Instance io_ret : MRet io := fun A a w => (w, Ok a).
#[global] Instance io_bind : MBind io := fun A B f m w =>
  match m w with
  | (w', Ok a) => f a w'
  | (w', Raise e) => (w', Raise e)
  end.

Definition raise {A} (e : exn) : io A := fun w => (w, Raise e).

(** [try: body except ...: handler]; [handler e = None] when no clause
    matches [e], which then propagates. *)
Definition try_except {A} (body : io A) (handler : exn → option (io A)) : io A :=
  fun w =>
    match body w with
    | (w', Ok a) => (w', Ok a)
    | (w', Raise e) =>
        match handler e with
        | Some h => h w'
        | None => (w', Raise e)
        end
    end.

(** The world with more lines on its console. *)
Definition with_console (w : world) (ls : list line) : world :=
  {| fs := fs w; console := console w ++ ls; clock := clock w; calls := calls w |}.

Definition print (l : line) : io unit := fun w => (with_console w [l], Ok tt).

Definition record_call (c : engine_call) : io unit := fun w =>
  ({| fs := fs w; console := console w; clock := clock w; calls := calls w ++ [c] |},
   Ok tt).

(** [Path(p).exists()] *)
Definition path_exists (p : string) : io bool := fun w =>
  (w, Ok (bool_decide (is_Some (fs w !! p)))).

(** [os.stat(p)], the two fields the code reads: [st_size] and [st_mtime].
    A directory has a size and a time too; the code never keeps them, as it
    cannot open the directory afterwards. *)
Definition os_stat (p : string) : io (Z * spec_float) := fun w =>
  match fs w !! p with
  | None => (w, Raise (FileNotFoundError p))
  | Some (File f) => (w, Ok (Z.of_nat (String.length (content f)), st_mtime f))
  | Some Dir => (w, Ok (4096, clock w))
  end.

(** [open(p, 'r')] or [open(p, 'rb')]: the bytes the handle delivers when
    read to the end. *)
Definition read_file (p : string) : io string := fun w =>
  match fs w !! p with
  | None => (w, Raise (FileNotFoundError p))
  | Some Dir => (w, Raise (IsADirectoryError p))
  | Some (File f) =>
      if readable f then (w, Ok (content f)) else (w, Raise (PermissionError p))
  end.

(** [with open(p, 'w') as f: f.write(text)]: creates or truncates. *)
Definition write_file (p : string) (text : string) : io unit := fun w =>
  let put f :=
    {| fs := <[p := File f]> (fs w); console := console w; clock := clock w;
       calls := calls w |} in
  match fs w !! p with
  | None =>
      (put {| readable := true; writable := true; content := text;
              st_mtime := clock w |}, Ok tt)
  | Some Dir => (w, Raise (IsADirectoryError p))
  | Some (File f) =>
      if writable f
      then (put {| readable := readable f; writable := true; content := text;
                   st_mtime := clock w |}, Ok tt)
      else (w, Raise (PermissionError p))
  end.

(** The report dictionary: string keys to lists of paths. *)
Abbreviation report := (gmap string (list string)).

(** The two ways [json.load] fails on the text of a file: the text is not
    JSON ([json.JSONDecodeError]) or the bytes are not text
    ([UnicodeDecodeError]). *)
Inductive load_error :=
  | InvalidJSON (msg : string)
  | InvalidText.

(** Library functions the code calls and this repository does not define:
    the BLAKE3 digest of a byte string, Python's [json] module at the two
    types it is used at ([dump] with its [indent]), and [pathlib]'s
    [Path(p).name]. *)
Class Externals := {
  blake3_hexdigest : string → string;
  json_dump : nat → snapshot → string;
  json_dump_report : nat → report → string;
  json_load : string → load_error + snapshot;
  Path_name : string → string
}.

(** The codec property [json] has on baselines: what [dump] writes, [load]
    reads back, at every indentation. *)
Definition json_roundtrip `{Externals} : Prop :=
  ∀ indent (d : snapshot), json_load (json_dump indent d) = inr d.

(* ================================================================== *)
(** * Snapshot building: [animate_hashing_process]                     *)
(* ================================================================== *)

Module Scan.
Section Scan.
Context `{Externals}.

(** [f.read(n)] on what is left of a file: at most [n] bytes from the
    front, and what is left after them. *)
Fixpoint read (n : nat) (s : string) : string * string :=
  match n, s with
  | S n', String c s' => let '(chunk, rest) := read n' s' in (String c chunk, rest)
  | _, _ => ("", s)
  end.

Definition chunk_size : nat := Z.to_nat 65536.

(** [while chunk := f.read(65536): hasher.update(chunk)].  The hasher is
    the bytes it has been fed; the loop ends on the first empty chunk, and
    [fuel] bounds its iterations. *)
Fixpoint hash_loop (fuel : nat) (hasher : string) (f : string) : string :=
  match fuel with
  | O => hasher
  | S fuel' =>
      let '(chunk, rest) := read chunk_size f in
      if decide (chunk = "") then hasher
      else hash_loop fuel' (hasher +:+ chunk) rest
  end.

(** The body of the [try] for one file: stat, open, read and hash, and the
    record stored under [baseline[filepath]].  Every iteration of the chunk
    loop but the last takes at least one byte, so one more iteration than
    the file has bytes is enough fuel. *)
Definition hash_file (filepath : string) : io (record * Z) :=
  '(size, mtime) ← os_stat filepath;
  f ← read_file filepath;
  let hasher := hash_loop (S (String.length f)) "" f in
  let hex_hash := blake3_hexdigest hasher in
  mret ({[ "path" := PyStr filepath; "hash" := PyStr hex_hash;
           "size" := PyInt size; "mtime" := PyFloat mtime ]} : record, size).

(** The [for] loop: the state is [(baseline, total_bytes)]. *)
Fixpoint scan_loop (files : list string) (st : snapshot * Z) : io (snapshot * Z) :=
  match files with
  | [] => mret st
  | filepath :: rest =>
      st' ← try_except
              ('(r, size) ← hash_file filepath;
               mret (<[filepath := r]> st.1, st.2 + size))
              (λ e, if is_Exception e
                    then Some (print (ScanError filepath e);; mret st)
                    else None);
      scan_loop rest st'
  end.

Definition animate_hashing_process (files : list string) (output_baseline : string)
    : io snapshot :=
  '(baseline, total_bytes) ← scan_loop files (∅, 0);
  write_file output_baseline (json_dump 2 baseline);;
  print (ScanSummary (size baseline) total_bytes output_baseline);;
  mret baseline.

(** A file the scan can process: it exists, is a regular file and is
    readable. *)
Definition hashable (w : world) (p : string) : bool :=
  match fs w !! p with
  | Some (File f) => readable f
  | _ => false
  end.

(** The record the scan stores for a file it can process. *)
Definition record_of (w : world) (p : string) : option record :=
  match fs w !! p with
  | Some (File f) =>
      if readable f
      then Some {[ "path" := PyStr p; "hash" := PyStr (blake3_hexdigest (content f));
                   "size" := PyInt (Z.of_nat (String.length (content f)));
                   "mtime" := PyFloat (st_mtime f) ]}
      else None
  | _ => None
  end.

(** The exception the [try] block raises on a file it cannot process. *)
Definition scan_error (w : world) (p : string) : exn :=
  match fs w !! p with
  | None => FileNotFoundError p
  | Some Dir => IsADirectoryError p
  | Some (File _) => PermissionError p
  end.

End Scan.
End Scan.

(* ================================================================== *)
(** * The baseline store and the check flow: [agent.py]                *)
(* ================================================================== *)

Module Agent.

(** Modelled from the spec: the entry type of [baseline_engine], whose
    source is not part of this development.  The spec gives it the fields
    [path], [hash] (hex string), [size] (integer) and [mtime] (numeric). *)
Record FileRecord := {
  r_path : string;
  r_hash : string;
  r_size : Z;
  r_mtime : spec_float
}.

(** [dataclasses.asdict(entry)] *)
Definition asdict (entry : FileRecord) : record :=
  {[ "path" := PyStr (r_path entry); "hash" := PyStr (r_hash entry);
     "size" := PyInt (r_size entry); "mtime" := PyFloat (r_mtime entry) ]}.

(** The engine modules [main] imports: [config_engine.get_file_list],
    [baseline_engine.create_baseline], [integrity_engine.compare_baselines].
    Each may read the world, print and raise. *)
Class Engines := {
  get_file_list : string → io (list string);
  create_baseline : list string → io (gmap string FileRecord);
  compare_baselines : snapshot → snapshot → io report
}.

Record args := {
  config : string;
  baseline : string;
  output : string
}.

Section Agent.
Context `{Externals} `{Engines}.

Definition save_baseline (filepath : string) (data : gmap string FileRecord)
    : io unit :=
  let serializable_data : snapshot := asdict <$> data in
  try_except
    (write_file filepath (json_dump 4 serializable_data);;
     '(file_size, _) ← os_stat filepath;
     print (BaselineSaved filepath file_size))
    (λ e, if is_IOError e
          then Some (print (BaselineWriteFailed e);;
                     raise (Exception ("Failed to write baseline to " +:+ filepath) e))
          else None).

(** [json.load(f)] on the text of the file. *)
Definition json_load_io (text : string) : io snapshot := fun w =>
  (w, match json_load text with
      | inr data => Ok data
      | inl (InvalidJSON msg) => Raise (JSONDecodeError msg)
      | inl InvalidText => Raise UnicodeDecodeError
      end).

Definition load_baseline (filepath : string) : io snapshot :=
  try_except
    (ex ← path_exists filepath;
     if negb ex then mret (∅ : snapshot)
     else
       text ← read_file filepath;
       data ← json_load_io text;
       print (BaselineLoaded filepath (size data));;
       mret data)
    (λ e, match e with
          | FileNotFoundError _ => Some (mret (∅ : snapshot))
          | JSONDecodeError _ =>
              Some (print (BaselineCorrupted e);;
                    raise (Exception ("Failed to parse baseline file " +:+ filepath) e))
          | _ => None
          end).

(** [results.get(key, [])] *)
Definition report_get (results : report) (key : string) : list string :=
  default [] (results !! key).

Definition report_integrity_results (results : report) (output_file : string)
    : io bool :=
  let modified := report_get results "MODIFIED" in
  let created := report_get results "CREATED" in
  let deleted := report_get results "DELETED" in
  let total_changes := (length modified + length created + length deleted)%nat in
  write_file output_file (json_dump_report 2 results);;
  if (total_changes =? 0)%nat
  then print (ReportSecure output_file);; mret true
  else print (ReportAlert total_changes modified created deleted output_file);;
       mret false.

(** [sys.exit(code)] *)
Definition sys_exit {A} (code : Z) : io A := raise (SystemExit code).

(** [not d] on a dictionary. *)
Definition falsy (d : snapshot) : bool := bool_decide (d = ∅).

(** The [try] block of the [elif args.check:] branch of [main]. *)
Definition check_try (a : args) : io unit :=
  old_baseline ← load_baseline (baseline a);
  (if falsy old_baseline
   then print (BaselineNotFoundOrEmpty (baseline a));;
        print RunInitFirst;;
        sys_exit 1
   else mret tt);;
  record_call (CallGetFileList (config a));;
  files_to_scan ← get_file_list (config a);
  print (DiscoveryComplete (length files_to_scan));;
  print CreatingSnapshot;;
  record_call (CallCreateBaseline files_to_scan);;
  new_baseline_raw ← create_baseline files_to_scan;
  print (SnapshotComplete (size new_baseline_raw));;
  let new_baseline : snapshot := asdict <$> new_baseline_raw in
  print AnalyzingViolations;;
  record_call CallCompareBaselines;;
  results ← compare_baselines old_baseline new_baseline;
  is_secure ← report_integrity_results results (output a);
  sys_exit (if is_secure : bool then 0 else 1).

(** Its [except Exception as e:] clause. *)
Definition check_except (e : exn) : option (io unit) :=
  if is_Exception e
  then Some (print (FatalError e);;
             print CheckBaselineHint;;
             sys_exit 1)
  else None.

(** The [elif args.check:] branch of [main], from the banner to the last
    line of the function. *)
Definition main_check (a : args) : io unit :=
  print Banner;;
  print (CheckModeHeader (config a) (baseline a));;
  try_except (check_try a) check_except;;
  print Shutdown.

(** The exit status of the process: the code of [SystemExit], 0 when the
    function returns, 1 when another exception reaches the top level. *)
Definition exit_status (r : result unit) : Z :=
  match r with
  | Ok _ => 0
  | Raise (SystemExit code) => code
  | Raise _ => 1
  end.

(** The engines raise nothing but exceptions derived from [Exception];
    none of them ends the process itself. *)
Definition engines_raise_Exception : Prop :=
  (∀ c w w' e, get_file_list c w = (w', Raise e) → is_Exception e = true) ∧
  (∀ l w w' e, create_baseline l w = (w', Raise e) → is_Exception e = true) ∧
  (∀ o n w w' e, compare_baselines o n w = (w', Raise e) → is_Exception e = true).

(** How a run of the check flow ended, as its last line on the console
    tells: the report panel, the fatal-error block, or the request to
    initialise first. *)
Inductive outcome :=
  | Secure
  | Breach
  | Fatal
  | NoBaseline.

Definition outcome_of (w : world) : option outcome :=
  match last (console w) with
  | Some (ReportSecure _) => Some Secure
  | Some (ReportAlert _ _ _ _ _) => Some Breach
  | Some CheckBaselineHint => Some Fatal
  | Some RunInitFirst => Some NoBaseline
  | _ => None
  end.

(** The world when the [try] block of the check flow is entered: the banner
    and the mode header are on the console. *)
Definition after_header (a : args) (w : world) : world :=
  with_console w [Banner; CheckModeHeader (config a) (baseline a)].

End Agent.
End Agent.

(* ================================================================== *)
(** * The live aggregator: [AegisFileWatcher]                          *)
(* ================================================================== *)

Module LiveMonitor.

(** The two attributes of a watchdog event the handlers read. *)
Record FileSystemEvent := {
  is_directory : bool;
  src_path : string
}.

(** An entry of the log: the dictionary with the keys ['time'], ['type'],
    ['file'] and ['path']. *)
Record log_entry := {
  e_time : string;
  e_type : string;
  e_file : string;
  e_path : string
}.

Record AegisFileWatcher := {
  events : list log_entry;
  max_events : nat
}.

(** [__init__] *)
Definition init : AegisFileWatcher := {| events := []; max_events := 50 |}.

(** [l.pop(0)] on a list known to be non-empty: the list without its first
    element. *)
Definition pop0 {A} (l : list A) : list A := tail l.

(** The notification kinds the class handles; every other kind goes to a
    handler it inherits unchanged. *)
Inductive kind :=
  | MODIFIED
  | CREATED
  | DELETED.

Definition kind_name (k : kind) : string :=
  match k with
  | MODIFIED => "MODIFIED"
  | CREATED => "CREATED"
  | DELETED => "DELETED"
  end.

(** A raw notification as it reaches the watcher: which handler the
    observer calls, the event, and what [datetime.now().strftime("%H:%M:%S")]
    gives at that moment. *)
Record notification := {
  n_kind : kind;
  n_event : FileSystemEvent;
  n_now : string
}.

Section LiveMonitor.
Context `{Externals}.

Definition make_entry (timestamp event_type filepath : string) : log_entry :=
  {| e_time := timestamp; e_type := event_type;
     e_file := Path_name filepath; e_path := filepath |}.

Definition log_event (self : AegisFileWatcher) (timestamp event_type filepath : string)
    : AegisFileWatcher :=
  let appended := events self ++ [make_entry timestamp event_type filepath] in
  {| events := if (max_events self <? length appended)%nat
               then pop0 appended else appended;
     max_events := max_events self |}.

Definition on_modified (self : AegisFileWatcher) (now : string) (event : FileSystemEvent)
    : AegisFileWatcher :=
  if negb (is_directory event) then log_event self now "MODIFIED" (src_path event)
  else self.

Definition on_created (self : AegisFileWatcher) (now : string) (event : FileSystemEvent)
    : AegisFileWatcher :=
  if negb (is_directory event) then log_event self now "CREATED" (src_path event)
  else self.

Definition on_deleted (self : AegisFileWatcher) (now : string) (event : FileSystemEvent)
    : AegisFileWatcher :=
  if negb (is_directory event) then log_event self now "DELETED" (src_path event)
  else self.

(** The observer calling the handler of the notification's kind. *)
Definition dispatch (self : AegisFileWatcher) (n : notification) : AegisFileWatcher :=
  match n_kind n with
  | MODIFIED => on_modified self (n_now n) (n_event n)
  | CREATED => on_created self (n_now n) (n_event n)
  | DELETED => on_deleted self (n_now n) (n_event n)
  end.

(** A stream of notifications delivered one after the other. *)
Definition feed (self : AegisFileWatcher) (ns : list notification) : AegisFileWatcher :=
  fold_left dispatch ns self.

(** The entry a notification is logged as, if it is logged. *)
Definition entry_of (n : notification) : option log_entry :=
  if is_directory (n_event n) then None
  else Some (make_entry (n_now n) (kind_name (n_kind n)) (src_path (n_event n))).

(** All entries appended while [ns] is delivered, in arrival order. *)
Definition appended (ns : list notification) : list log_entry := omap entry_of ns.

End LiveMonitor.
End LiveMonitor.

(* ================================================================== *)
(** * A concrete instance of the library interface                     *)
(* ================================================================== *)

(** The statements below are exercised on an instance of [Externals] that
    can be run: the digest is a tagged copy of the bytes, and the codec
    writes the code of the snapshot as a string of binary digits.  It is
    not JSON; it has the one property of [json] the proofs use. *)

#[global] Instance spec_float_eq_dec : EqDecision spec_float.
Proof. solve_decision. Defined.

#[global] Instance pyval_eq_dec : EqDecision pyval.
Proof. solve_decision. Defined.

#[global] Instance spec_float_countable : Countable spec_float :=
  inj_countable'
    (λ f, match f with
          | S754_zero s => inl s
          | S754_infinity s => inr (inl s)
          | S754_nan => inr (inr (inl ()))
          | S754_finite s m e => inr (inr (inr (s, m, e)))
          end)
    (λ x, match x with
          | inl s => S754_zero s
          | inr (inl s) => S754_infinity s
          | inr (inr (inl _)) => S754_nan
          | inr (inr (inr (s, m, e))) => S754_finite s m e
          end)
    (λ f, match f with
          | S754_zero _ | S754_infinity _ | S754_nan | S754_finite _ _ _ => eq_refl
          end).

#[global] Instance pyval_countable : Countable pyval :=
  inj_countable'
    (λ v, match v with
          | PyNone => inl ()
          | PyBool b => inr (inl b)
          | PyInt z => inr (inr (inl z))
          | PyFloat f => inr (inr (inr (inl f)))
          | PyStr s => inr (inr (inr (inr s)))
          end)
    (λ x, match x with
          | inl _ => PyNone
          | inr (inl b) => PyBool b
          | inr (inr (inl z)) => PyInt z
          | inr (inr (inr (inl f))) => PyFloat f
          | inr (inr (inr (inr s))) => PyStr s
          end)
    (λ v, match v with
          | PyNone | PyBool _ | PyInt _ | PyFloat _ | PyStr _ => eq_refl
          end).

Fixpoint pos_to_bits (p : positive) : string :=
  match p with
  | xH => ""
  | xO q => String "0" (pos_to_bits q)
  | xI q => String "1" (pos_to_bits q)
  end.

Fixpoint bits_to_pos (s : string) : option positive :=
  match s with
  | "" => Some xH
  | String c s' =>
      q ← bits_to_pos s';
      if Ascii.eqb c "0" then Some (xO q)
      else if Ascii.eqb c "1" then Some (xI q)
      else None
  end.

Definition demo_dump {A} `{Countable A} (a : A) : string := pos_to_bits (encode a).

Definition demo_load (text : string) : load_error + snapshot :=
  match bits_to_pos text ≫= decode with
  | Some d => inr d
  | None => inl (InvalidJSON "Expecting value")
  end.

(** The last component of a path written with [/]. *)
Fixpoint basename (acc s : string) : string :=
  match s with
  | "" => acc
  | String c s' =>
      if Ascii.eqb c "/" then basename "" s' else basename (acc +:+ String c "") s'
  end.

#[global] Instance demo_externals : Externals := {|
  blake3_hexdigest := λ bytes, "blake3:" +:+ bytes;
  json_dump := λ _ d, demo_dump d;
  json_dump_report := λ _ r, demo_dump r;
  json_load := demo_load;
  Path_name := basename ""
|}.

(** Engines for the examples: the file list is a fixed pair of paths, the
    snapshot holds one entry per listed file that can be read, the
    comparison is the one of [visualize_integrity_check]. *)
Definition demo_create_baseline (files : list string) : io (gmap string Agent.FileRecord) :=
  fun w =>
    (w, Ok (list_to_map
              (omap (λ p, match fs w !! p with
                          | Some (File f) =>
                              Some (p, {| Agent.r_path := p;
                                          Agent.r_hash := "blake3:" +:+ content f;
                                          Agent.r_size := Z.of_nat (String.length (content f));
                                          Agent.r_mtime := st_mtime f |})
                          | _ => None
                          end) files))).

Definition demo_compare (old_baseline new_baseline : snapshot) : io report :=
  fun w =>
    match Comparator.visualize_integrity_check old_baseline new_baseline with
    | Ok d => (w, Ok ({[ "MODIFIED" := Comparator.modified d;
                         "CREATED" := Comparator.created d;
                         "DELETED" := Comparator.deleted d ]} : report))
    | Raise e => (w, Raise e)
    end.

#[global] Instance demo_engines : Agent.Engines := {|
  Agent.get_file_list := λ _, mret ["a.txt"; "b.txt"];
  Agent.create_baseline := demo_create_baseline;
  Agent.compare_baselines := demo_compare
|}.

(** Data the statements are exercised on. *)
Section DemoData.
Import Comparator Agent LiveMonitor.

(** Two monitored files; a world that holds them and no baseline, and a
    world whose baseline file is not JSON. *)
Definition file_a : file :=
  {| readable := true; writable := true; content := "alpha";
     st_mtime := S754_finite false 3 5 |}.

Definition file_b : file :=
  {| readable := true; writable := true; content := "beta";
     st_mtime := S754_finite false 5 4 |}.

Definition world_fresh : world :=
  {| fs := {[ "a.txt" := File file_a; "b.txt" := File file_b ]};
     console := []; clock := S754_finite false 7 4; calls := [] |}.

Definition world_corrupt : world :=
  {| fs := {[ "a.txt" := File file_a;
              "baseline.json" :=
                File {| readable := true; writable := true;
                        content := "{ not json"; st_mtime := S754_zero false |} ]};
     console := []; clock := S754_finite false 7 4; calls := [] |}.

Definition data_demo : gmap string FileRecord :=
  {[ "a.txt" := {| r_path := "a.txt"; r_hash := "blake3:alpha"; r_size := 5;
                   r_mtime := S754_finite false 3 5 |} ]}.

Definition args_demo : args :=
  {| config := "config.json"; baseline := "baseline.json";
     output := "integrity_report.json" |}.

(** The baseline of [a.txt] and [b.txt] as first scanned. *)
Definition baseline_text : string :=
  demo_dump
    (asdict <$>
       ({[ "a.txt" := {| r_path := "a.txt"; r_hash := "blake3:alpha"; r_size := 5;
                         r_mtime := S754_finite false 3 5 |};
           "b.txt" := {| r_path := "b.txt"; r_hash := "blake3:beta"; r_size := 4;
                         r_mtime := S754_finite false 5 4 |} ]}
        : gmap string FileRecord)).

Definition baseline_file : node :=
  File {| readable := true; writable := true; content := baseline_text;
          st_mtime := S754_finite false 6 4 |}.

(** The files are as the baseline has them. *)
Definition world_secure : world :=
  {| fs := {[ "a.txt" := File file_a; "b.txt" := File file_b;
              "baseline.json" := baseline_file ]};
     console := []; clock := S754_finite false 7 4; calls := [] |}.

(** The baseline file holds the empty mapping. *)
Definition world_empty_baseline : world :=
  {| fs := {[ "a.txt" := File file_a;
              "baseline.json" :=
                File {| readable := true; writable := true;
                        content := demo_dump (∅ : snapshot);
                        st_mtime := S754_finite false 6 4 |} ]};
     console := []; clock := S754_finite false 7 4; calls := [] |}.

(** [a.txt] has been rewritten since. *)
Definition world_breach : world :=
  {| fs := {[ "a.txt" := File {| readable := true; writable := true;
                                 content := "tampered";
                                 st_mtime := S754_finite false 13 3 |};
              "b.txt" := File file_b;
              "baseline.json" := baseline_file ]};
     console := []; clock := S754_finite false 7 4; calls := [] |}.

(** Two snapshots used to exercise the statements below: [a.txt] keeps
    its hash while its size and time change, [b.txt] changes its hash,
    [c.txt] disappears and [d.txt] appears. *)
Definition old_demo : snapshot :=
  {[ "a.txt" := {[ "path" := PyStr "a.txt"; "hash" := PyStr "aa";
                   "size" := PyInt 1; "mtime" := PyFloat (S754_zero false) ]};
     "b.txt" := {[ "path" := PyStr "b.txt"; "hash" := PyStr "bb" ]};
     "c.txt" := {[ "path" := PyStr "c.txt"; "hash" := PyStr "cc" ]} ]}.

Definition new_demo : snapshot :=
  {[ "a.txt" := {[ "path" := PyStr "a.txt"; "hash" := PyStr "aa";
                   "size" := PyInt 7; "mtime" := PyFloat (S754_finite false 3 5) ]};
     "b.txt" := {[ "path" := PyStr "b.txt"; "hash" := PyStr "b2" ]};
     "d.txt" := {[ "path" := PyStr "d.txt"; "hash" := PyStr "dd" ]} ]}.

(** Sixty notifications of modified files [f0] ... [f59]. *)
Definition sixty : list notification :=
  (λ i, {| n_kind := MODIFIED;
           n_event := {| is_directory := false; src_path := "watched/f" +:+ pretty i |};
           n_now := "12:00:00" |}) <$> seq 0 60.

Definition on_created_file : notification :=
  {| n_kind := CREATED;
     n_event := {| is_directory := false; src_path := "watched/new.txt" |};
     n_now := "12:00:01" |}.

Definition on_created_dir : notification :=
  {| n_kind := CREATED;
     n_event := {| is_directory := true; src_path := "watched/sub" |};
     n_now := "12:00:02" |}.

End DemoData.

(* ================================================================== *)
(** * The tree [visualize_integrity_check] prints                      *)
(* ================================================================== *)

Module TreeView.
Import Comparator.

(** The three branches the tree can have. *)
Inductive group :=
  | ModifiedFiles
  | CreatedFiles
  | DeletedFiles.

(** What is added under a branch: a path, or the line
    ["... and n more"]. *)
Inductive leaf :=
  | PathLeaf (path : string)
  | MoreLeaf (n : nat).

(** What is added under the root: a branch with its leaves, or the line
    that all files match the baseline. *)
Inductive branch :=
  | Group (g : group) (leaves : list leaf)
  | AllFilesMatch.

(** [if paths: b = tree.add(title); for path in paths[:10]: b.add(path);
     if len(paths) > 10: b.add(f"... and {len(paths)-10} more")] *)
Definition add_group (g : group) (paths : list string) : list branch :=
  match paths with
  | [] => []
  | _ :: _ =>
      [Group g ((PathLeaf <$> take 10 paths) ++
                (if (10 <? length paths)%nat
                 then [MoreLeaf (length paths - 10)] else []))]
  end.

(** The children of the root, in the order they are added. *)
Definition comparison_tree (d : delta) : list branch :=
  add_group ModifiedFiles (modified d) ++
  add_group CreatedFiles (created d) ++
  add_group DeletedFiles (deleted d) ++
  match modified d, created d, deleted d with
  | [], [], [] => [AllFilesMatch]
  | _, _, _ => []
  end.

(** The list a branch stands for. *)
Definition paths_of (g : group) (d : delta) : list string :=
  match g with
  | ModifiedFiles => modified d
  | CreatedFiles => created d
  | DeletedFiles => deleted d
  end.

End TreeView.

(** Twelve modified paths: ten are shown and two are counted. *)
Definition twelve : Comparator.delta :=
  {| Comparator.modified := (λ i, "f" +:+ pretty i) <$> seq 0 12;
     Comparator.created := []; Comparator.deleted := [] |}.

(* ================================================================== *)
(** * More of snapshot building                                        *)
(* ================================================================== *)

(** The bytes the scan adds to [total_bytes] for a path: the size of the
    file when it can be processed, nothing otherwise. *)
Definition counted (files_now : gmap string node) (p : string) : Z :=
  match files_now !! p with
  | Some (File f) => if readable f then Z.of_nat (String.length (content f)) else 0
  | _ => 0
  end.

(** A world in which the output path of the scan is a directory. *)
Definition world_output_dir : world :=
  {| fs := {[ "a.txt" := File file_a; "baseline_visual.json" := Dir ]};
     console := []; clock := S754_finite false 7 4; calls := [] |}.

(** A world in which the baseline path is a directory. *)
Definition world_baseline_dir : world :=
  {| fs := {[ "a.txt" := File file_a; "baseline.json" := Dir ]};
     console := []; clock := S754_finite false 7 4; calls := [] |}.

(* ================================================================== *)
(** * The table of [create_monitor_display]                            *)
(* ================================================================== *)

(** The rows [create_monitor_display] adds to its table and the three
    counts it takes of the log, as functions of the watcher. *)
Module LiveDisplay.
Import LiveMonitor.

(** The colour of a row. *)
Inductive style :=
  | red
  | yellow
  | orange3.

(** The text of the status column. *)
Inductive status :=
  | ALERT
  | WARNING
  | SECURE.

(** A row of the table: time, event (with its colour, if any), file and
    status (with its colour). *)
Record row := {
  row_time : string;
  row_event : string;
  row_event_style : option style;
  row_file : string;
  row_status : status;
  row_status_style : option style
}.

(** [l[-15:]] *)
Definition last15 {A} (l : list A) : list A := drop (length l - 15) l.

(** The row added for one event of the log. *)
Definition event_row (event : log_entry) : row :=
  let event_type := e_type event in
  let '(status, style) :=
    if String.eqb event_type "MODIFIED" then (ALERT, red)
    else if String.eqb event_type "CREATED" then (WARNING, yellow)
    else (WARNING, orange3) in
  {| row_time := e_time event; row_event := event_type;
     row_event_style := Some style; row_file := e_file event;
     row_status := status; row_status_style := Some style |}.

(** The row shown while the log is empty. *)
Definition no_events_row : row :=
  {| row_time := "--:--:--"; row_event := "NO EVENTS"; row_event_style := None;
     row_file := "Waiting for changes..."; row_status := SECURE;
     row_status_style := None |}.

(** The rows of the table, in the order they are added. *)
Definition table_rows (watcher : AegisFileWatcher) : list row :=
  let recent_events := last15 (events watcher) in
  match recent_events with
  | [] => [no_events_row]
  | _ :: _ => event_row <$> reverse recent_events
  end.

(** [sum(1 for e in watcher.events if e['type'] == name)] *)
Definition count_type (watcher : AegisFileWatcher) (name : string) : nat :=
  length (List.filter (λ e, String.eqb (e_type e) name) (events watcher)).

Definition modified_count (watcher : AegisFileWatcher) : nat :=
  count_type watcher "MODIFIED".
Definition created_count (watcher : AegisFileWatcher) : nat :=
  count_type watcher "CREATED".
Definition deleted_count (watcher : AegisFileWatcher) : nat :=
  count_type watcher "DELETED".

End LiveDisplay.

(* ================================================================== *)
(** * The report of [engine/reporting_engine.py]                       *)
(* ================================================================== *)

Module ReportingEngine.
Import Agent.

(** What [report_integrity_check] prints: one of the two panels, then
    tables; a table has a title and rows of a path and a status. *)
Inductive renderable :=
  | SecurePanel
  | AlertPanel (total_changes : nat)
  | Table (title : string) (rows : list (string * string)).

(** [if paths: table = Table(title=...); for path in paths:
    table.add_row(path, status); console.print(table)] *)
Definition print_table (title status : string) (paths : list string)
    : list renderable :=
  match paths with
  | [] => []
  | _ :: _ => [Table title ((λ path, (path, status)) <$> paths)]
  end.

(** What is printed, in order, and the value returned. *)
Definition report_integrity_check (results : report) : list renderable * bool :=
  let modified := report_get results "MODIFIED" in
  let created := report_get results "CREATED" in
  let deleted := report_get results "DELETED" in
  let total_changes := (length modified + length created + length deleted)%nat in
  if (total_changes =? 0)%nat
  then ([SecurePanel], true)
  else ([AlertPanel total_changes]
          ++ print_table "Modified Files (CRITICAL)" "MODIFIED" modified
          ++ print_table "Created Files (WARNING)" "NEW FILE" created
          ++ print_table "Deleted Files (WARNING)" "DELETED" deleted,
        false).

(** The rows of the tables among what is printed, top to bottom. *)
Definition rows_of (out : list renderable) : list (string * string) :=
  out ≫= λ r, match r with Table _ rows => rows | _ => [] end.

End ReportingEngine.

(* ================================================================== *)
(** * The whole of [main]: initialisation and dispatch                 *)
(* ================================================================== *)

Module AgentMain.
Import Agent.

(** The messages of [main] outside its check branch; the help text goes
    to the standard error stream. *)
Inductive init_line :=
  | HelpText
  | InitModeHeader (config baseline : string)
  | NoFilesFound
  | StartingSnapshot
  | BaselineCreationComplete (n : nat)
  | InitComplete (n : nat) (baseline : string)
  | CheckConfigHint.

(** The world of a run of [main]: the world of the check flow, and the
    other messages, each with the number of lines that were on the console
    when it was printed. *)
Record state := {
  base : world;
  extra : list (nat * init_line)
}.

Definition xio (A : Type) : Type := state → state * result A.

#[global] Instance xio_ret : MRet xio := fun A a s => (s, Ok a).
#[global] Instance xio_bind : MBind xio := fun A B f m s =>
  match m s with
  | (s', Ok a) => f a s'
  | (s', Raise e) => (s', Raise e)
  end.

(** A computation of the check flow, run in the world of [main]. *)
Definition lift {A} (m : io A) : xio A := fun s =>
  let '(w', r) := m (base s) in ({| base := w'; extra := extra s |}, r).

Definition xprint (l : init_line) : xio unit := fun s =>
  ({| base := base s; extra := extra s ++ [(length (console (base s)), l)] |}, Ok tt).

Definition xtry_except {A} (body : xio A) (handler : exn → option (xio A)) : xio A :=
  fun s =>
    match body s with
    | (s', Ok a) => (s', Ok a)
    | (s', Raise e) =>
        match handler e with
        | Some h => h s'
        | None => (s', Raise e)
        end
    end.

(** What [main] reads of the command line: no argument at all, or the
    namespace [parse_args] returns. *)
Inductive argv :=
  | NoArguments
  | Parsed (init check : bool) (a : args).

(** The world in which the initialisation lists the files: the banner is
    printed and the call recorded. *)
Definition init_entered (a : args) (s : state) : world :=
  {| fs := fs (base s); console := console (base s) ++ [Banner];
     clock := clock (base s);
     calls := calls (base s) ++ [CallGetFileList (config a)] |}.

(** The world in which it hashes them, from the one the listing left. *)
Definition hashing_entered (files : list string) (w : world) : world :=
  {| fs := fs w; console := console w ++ [DiscoveryComplete (length files)];
     clock := clock w; calls := calls w ++ [CallCreateBaseline files] |}.

Section AgentMain.
Context `{Externals} `{Engines}.

(** The [try] block of the [if args.init:] branch. *)
Definition init_try (a : args) : xio unit :=
  lift (record_call (CallGetFileList (config a)));;
  files_to_scan ← lift (get_file_list (config a));
  (if bool_decide (files_to_scan = [])
   then xprint NoFilesFound;;
        lift (sys_exit 1)
   else mret tt);;
  lift (print (DiscoveryComplete (length files_to_scan)));;
  xprint StartingSnapshot;;
  lift (record_call (CallCreateBaseline files_to_scan));;
  baseline_data ← lift (create_baseline files_to_scan);
  xprint (BaselineCreationComplete (size baseline_data));;
  lift (save_baseline (baseline a) baseline_data);;
  xprint (InitComplete (size baseline_data) (baseline a)).

(** Its [except Exception as e:] clause. *)
Definition init_except (e : exn) : option (xio unit) :=
  if is_Exception e
  then Some (lift (print (FatalError e));;
             xprint CheckConfigHint;;
             lift (sys_exit 1))
  else None.

Definition main (v : argv) : xio unit :=
  match v with
  | NoArguments =>
      lift (print Banner);;
      xprint HelpText;;
      lift (sys_exit 1)
  | Parsed init check a =>
      lift (print Banner);;
      (if init then
         xprint (InitModeHeader (config a) (baseline a));;
         xtry_except (init_try a) init_except
       else if check then
         lift (print (CheckModeHeader (config a) (baseline a));;
               try_except (check_try a) check_except)
       else mret tt);;
      lift (print Shutdown)
  end.

End AgentMain.
End AgentMain.

(** Engines that find no file to scan, and a world without files. *)
Definition no_files_engines : Agent.Engines := {|
  Agent.get_file_list := λ _, mret [];
  Agent.create_baseline := demo_create_baseline;
  Agent.compare_baselines := demo_compare
|}.

Definition state_fresh : AgentMain.state :=
  {| AgentMain.base := world_fresh; AgentMain.extra := [] |}.

Definition state_bare : AgentMain.state :=
  {| AgentMain.base := {| fs := ∅; console := []; clock := S754_finite false 7 4;
                          calls := [] |};
     AgentMain.extra := [] |}.

Definition state_baseline_dir : AgentMain.state :=
  {| AgentMain.base := world_baseline_dir; AgentMain.extra := [] |}.

(** A report with two modified paths and one deleted, and no entry for
    created paths. *)
Definition report_demo : report :=
  {[ "MODIFIED" := ["a.txt"; "b.txt"]; "DELETED" := ["c.txt"] ]}.

(* ================================================================== *)
(** * The dashboard: [dashboard/app.py]                                *)
(* ================================================================== *)

Module Dashboard.
Import Agent.

(** What the dashboard takes from libraries beyond [Externals]:
    [json.load] at the type of the report, and
    [datetime.now().strftime("%Y-%m-%d %H:%M:%S")] as a function of the
    clock. *)
Class DashboardExternals := {
  json_load_report : string → load_error + report;
  strftime_now : spec_float → string
}.

(** The codec property [json] has on reports. *)
Definition report_roundtrip `{Externals} `{DashboardExternals} : Prop :=
  ∀ indent (r : report), json_load_report (json_dump_report indent r) = inr r.

Definition baseline_path : string := "../baseline.json".
Definition report_path : string := "../integrity_report.json".

(** The dictionary [get_system_stats] returns. *)
Record stats := {
  total_files : nat;
  modified : nat;
  created : nat;
  deleted : nat;
  total_changes : nat;
  status : string;
  last_scan : string
}.

Section Dashboard.
Context `{Externals} `{DashboardExternals}.

Definition load_baseline : io snapshot :=
  ex ← path_exists baseline_path;
  if ex : bool
  then text ← read_file baseline_path;
       json_load_io text
  else mret (∅ : snapshot).

(** [json.load(f)] on the text of the report file. *)
Definition json_load_report_io (text : string) : io report := fun w =>
  (w, match json_load_report text with
      | inr data => Ok data
      | inl (InvalidJSON msg) => Raise (JSONDecodeError msg)
      | inl InvalidText => Raise UnicodeDecodeError
      end).

Definition load_integrity_report : io report :=
  ex ← path_exists report_path;
  if ex : bool
  then text ← read_file report_path;
       json_load_report_io text
  else mret ({[ "MODIFIED" := []; "CREATED" := []; "DELETED" := [] ]} : report).

(** [datetime.now()] *)
Definition now : io spec_float := fun w => (w, Ok (clock w)).

Definition get_system_stats : io stats :=
  baseline ← load_baseline;
  report ← load_integrity_report;
  let total_files := size baseline in
  let modified := length (report_get report "MODIFIED") in
  let created := length (report_get report "CREATED") in
  let deleted := length (report_get report "DELETED") in
  let total_changes := (modified + created + deleted)%nat in
  let status := if (total_changes =? 0)%nat then "SECURE" else "BREACH" in
  t ← now;
  mret {| total_files := total_files; modified := modified; created := created;
          deleted := deleted; total_changes := total_changes; status := status;
          last_scan := strftime_now t |}.

End Dashboard.
End Dashboard.

(** A codec for reports and a fixed time stamp, for the examples. *)
Definition demo_load_report (text : string) : load_error + report :=
  match bits_to_pos text ≫= decode with
  | Some d => inr d
  | None => inl (InvalidJSON "Expecting value")
  end.

#[global] Instance demo_dashboard : Dashboard.DashboardExternals := {|
  Dashboard.json_load_report := demo_load_report;
  Dashboard.strftime_now := λ _, "2024-01-01 12:00:00"
|}.

(** A world whose dashboard baseline is the demo baseline and that has no
    report yet; one whose dashboard baseline is not JSON. *)
Definition world_dashboard : world :=
  {| fs := {[ "../baseline.json" := baseline_file ]};
     console := []; clock := S754_finite false 7 4; calls := [] |}.

Definition world_dashboard_corrupt : world :=
  {| fs := {[ "../baseline.json" :=
                File {| readable := true; writable := true;
                        content := "{ not json"; st_mtime := S754_zero false |} ]};
     console := []; clock := S754_finite false 7 4; calls := [] |}.

(* ================================================================== *)
(** * Properties of the comparator                                     *)
(* ================================================================== *)

Section ComparatorFacts.
Import Comparator.

Lemma py_ne_None_l (v : pyval) : py_ne PyNone v = true ↔ v ≠ PyNone.
Proof. destruct v; unfold py_ne; simpl; split; (done || congruence). Qed.

Lemma py_ne_None_r (v : pyval) : py_ne v PyNone = true ↔ v ≠ PyNone.
Proof.
  destruct v as [|b|z|f|s]; unfold py_ne; simpl; split; try (done || congruence).
Qed.

Lemma py_ne_str (s t : string) : py_ne (PyStr s) (PyStr t) = true ↔ s ≠ t.
Proof.
  unfold py_ne; simpl. rewrite negb_true_iff.
  destruct (String.eqb_spec s t); split; (done || congruence).
Qed.

Lemma dict_get_absent (r : record) (key : string) :
  r !! key = None → dict_get r key = PyNone.
Proof. unfold dict_get. by intros ->. Qed.

Lemma dict_get_present (r : record) (key : string) (v : pyval) :
  r !! key = Some v → dict_get r key = v.
Proof. unfold dict_get. by intros ->. Qed.

Lemma elem_of_sorted (l : list string) (k : string) : k ∈ sorted l ↔ k ∈ l.
Proof. unfold sorted. by rewrite merge_sort_Permutation. Qed.

Lemma NoDup_sorted (l : list string) : NoDup l → NoDup (sorted l).
Proof. unfold sorted. by rewrite merge_sort_Permutation. Qed.

#[local] Instance str_le_total : Total str_le.
Proof. intros s t. apply String.leb_total. Qed.

Lemma Sorted_sorted (l : list string) : Sorted str_le (sorted l).
Proof. apply Sorted_merge_sort, _. Qed.

Lemma hash_differs_b_spec (old_baseline new_baseline : snapshot) (k : string) :
  hash_differs_b old_baseline new_baseline k = true ↔
  hash_differs old_baseline new_baseline k.
Proof.
  unfold hash_differs_b, hash_differs. split.
  - destruct (old_baseline !! k) as [ro|], (new_baseline !! k) as [rn|]; try done.
    intros Hne. by exists ro, rn.
  - intros (ro & rn & -> & -> & Hne). done.
Qed.

(** On keys present on both sides the comprehension raises nothing, and
    keeps the keys whose hashes compare different. *)
Lemma modified_comprehension_common (old_baseline new_baseline : snapshot)
    (ks : list string) :
  (∀ k, k ∈ ks → k ∈ dom old_baseline ∧ k ∈ dom new_baseline) →
  modified_comprehension old_baseline new_baseline ks =
  Ok (List.filter (hash_differs_b old_baseline new_baseline) ks).
Proof.
  induction ks as [|k ks IH]; intros Hks; [done|].
  destruct (Hks k) as [[ro Hro]%elem_of_dom [rn Hrn]%elem_of_dom]; [left|].
  cbn [modified_comprehension List.filter]. unfold subscript, hash_differs_b.
  rewrite Hro, Hrn. cbn. rewrite IH; [done|].
  intros k' Hk'. apply Hks. by right.
Qed.

(** The function never raises, and its three lists are the sorted key sets
    below. *)
Lemma visualize_integrity_check_eq (old_baseline new_baseline : snapshot) :
  visualize_integrity_check old_baseline new_baseline =
  Ok {| modified :=
          sorted (List.filter (hash_differs_b old_baseline new_baseline)
                    (elements (dom old_baseline ∩ dom new_baseline)));
        created := sorted (elements (dom new_baseline ∖ dom old_baseline));
        deleted := sorted (elements (dom old_baseline ∖ dom new_baseline)) |}.
Proof.
  unfold visualize_integrity_check.
  rewrite modified_comprehension_common; [done|].
  intros k Hk%elem_of_elements. set_solver.
Qed.

Lemma elem_of_created (old_baseline new_baseline : snapshot) (k : string) :
  k ∈ sorted (elements (dom new_baseline ∖ dom old_baseline)) ↔
  k ∈ dom new_baseline ∧ k ∉ dom old_baseline.
Proof. rewrite elem_of_sorted, elem_of_elements. set_solver. Qed.

Lemma elem_of_deleted (old_baseline new_baseline : snapshot) (k : string) :
  k ∈ sorted (elements (dom old_baseline ∖ dom new_baseline)) ↔
  k ∈ dom old_baseline ∧ k ∉ dom new_baseline.
Proof. rewrite elem_of_sorted, elem_of_elements. set_solver. Qed.

Lemma elem_of_modified (old_baseline new_baseline : snapshot) (k : string) :
  k ∈ sorted (List.filter (hash_differs_b old_baseline new_baseline)
                (elements (dom old_baseline ∩ dom new_baseline))) ↔
  hash_differs old_baseline new_baseline k.
Proof.
  rewrite elem_of_sorted, list_elem_of_In, List.filter_In, <- list_elem_of_In.
  rewrite elem_of_elements, hash_differs_b_spec. split; [tauto|].
  intros Hd. split; [|done].
  destruct Hd as (ro & rn & Hro & Hrn & _).
  apply elem_of_intersection; split; apply elem_of_dom; eauto.
Qed.

Lemma hash_differs_dom (old_baseline new_baseline : snapshot) (k : string) :
  hash_differs old_baseline new_baseline k →
  k ∈ dom old_baseline ∧ k ∈ dom new_baseline.
Proof.
  intros (ro & rn & Hro & Hrn & _). split; apply elem_of_dom; eauto.
Qed.

Lemma unchanged_dom (old_baseline new_baseline : snapshot) (k : string) :
  unchanged old_baseline new_baseline k →
  k ∈ dom old_baseline ∧ k ∈ dom new_baseline.
Proof.
  intros (ro & rn & Hro & Hrn & _). split; apply elem_of_dom; eauto.
Qed.

Lemma unchanged_not_differs (old_baseline new_baseline : snapshot) (k : string) :
  unchanged old_baseline new_baseline k → ¬ hash_differs old_baseline new_baseline k.
Proof.
  intros (ro & rn & Hro & Hrn & He) (ro' & rn' & Hro' & Hrn' & Hd). congruence.
Qed.

Lemma common_differs_or_unchanged (old_baseline new_baseline : snapshot) (k : string) :
  k ∈ dom old_baseline → k ∈ dom new_baseline →
  hash_differs old_baseline new_baseline k ∨ unchanged old_baseline new_baseline k.
Proof.
  intros [ro Hro]%elem_of_dom [rn Hrn]%elem_of_dom.
  destruct (py_ne (dict_get ro "hash") (dict_get rn "hash")) eqn:E;
    [left | right]; by exists ro, rn.
Qed.

(** The result of the comparison, with the membership of its three
    lists. *)
Lemma visualize_integrity_check_spec (old_baseline new_baseline : snapshot) :
  ∃ d, visualize_integrity_check old_baseline new_baseline = Ok d ∧
    (∀ k, k ∈ created d ↔ k ∈ dom new_baseline ∧ k ∉ dom old_baseline) ∧
    (∀ k, k ∈ deleted d ↔ k ∈ dom old_baseline ∧ k ∉ dom new_baseline) ∧
    (∀ k, k ∈ modified d ↔ hash_differs old_baseline new_baseline k).
Proof.
  eexists. split; [apply visualize_integrity_check_eq|]. cbn.
  split; [|split]; intros k.
  - apply elem_of_created.
  - apply elem_of_deleted.
  - apply elem_of_modified.
Qed.

(** Each of the three lists is sorted and without duplicates: it stands
    for a set of paths. *)
Lemma visualize_integrity_check_lists (old_baseline new_baseline : snapshot) :
  ∃ d, visualize_integrity_check old_baseline new_baseline = Ok d ∧
    Forall (λ l, NoDup l ∧ Sorted str_le l) [modified d; created d; deleted d].
Proof.
  eexists. split; [apply visualize_integrity_check_eq|]. cbn.
  repeat apply Forall_cons_2; [..|apply Forall_nil_2];
    (split; [apply NoDup_sorted | apply Sorted_sorted]).
  - apply NoDup_ListNoDup, List.NoDup_filter, NoDup_ListNoDup, NoDup_elements.
  - apply NoDup_elements.
  - apply NoDup_elements.
Qed.

(** An unchanged path is in none of the three lists. *)
Lemma unchanged_in_none (old_baseline new_baseline : snapshot) (d : delta) (k : string) :
  (∀ k, k ∈ created d ↔ k ∈ dom new_baseline ∧ k ∉ dom old_baseline) →
  (∀ k, k ∈ deleted d ↔ k ∈ dom old_baseline ∧ k ∉ dom new_baseline) →
  (∀ k, k ∈ modified d ↔ hash_differs old_baseline new_baseline k) →
  unchanged old_baseline new_baseline k →
  (k ∉ modified d) ∧ (k ∉ created d) ∧ (k ∉ deleted d).
Proof.
  intros Hc Hdel Hm Hu. pose proof (unchanged_dom _ _ _ Hu) as [Ho Hn].
  rewrite Hm, Hc, Hdel. split; [by apply unchanged_not_differs | tauto].
Qed.

Example visualize_integrity_check_demo :
  visualize_integrity_check old_demo new_demo =
  Ok {| modified := ["b.txt"]; created := ["d.txt"]; deleted := ["c.txt"] |}.
Proof. vm_compute. reflexivity. Qed.

(** C1.  For every pair of snapshots the comparator returns (it never
    raises), and: Created is the set of paths in new and not in old; Deleted
    is the set of paths in old and not in new; Modified is the set of paths
    in both whose hashes compare different.  A path in both whose hashes
    compare equal is in none of the three; when both hashes are strings the
    path is Modified exactly when the strings differ, whatever the size and
    modification time of the two records are. *)
Theorem comparator_classifies (old_baseline new_baseline : snapshot) :
  ∃ d, visualize_integrity_check old_baseline new_baseline = Ok d ∧
    (∀ k, k ∈ created d ↔ k ∈ dom new_baseline ∧ k ∉ dom old_baseline) ∧
    (∀ k, k ∈ deleted d ↔ k ∈ dom old_baseline ∧ k ∉ dom new_baseline) ∧
    (∀ k, k ∈ modified d ↔ hash_differs old_baseline new_baseline k) ∧
    (∀ k, unchanged old_baseline new_baseline k →
          (k ∉ modified d) ∧ (k ∉ created d) ∧ (k ∉ deleted d)) ∧
    (∀ k ro rn h1 h2,
        old_baseline !! k = Some ro → new_baseline !! k = Some rn →
        ro !! "hash" = Some (PyStr h1) → rn !! "hash" = Some (PyStr h2) →
        (k ∈ modified d ↔ h1 ≠ h2) ∧ (k ∉ created d) ∧ (k ∉ deleted d)).
Proof.
  destruct (visualize_integrity_check_spec old_baseline new_baseline)
    as (d & Hd & Hc & Hdel & Hm).
  exists d. split; [exact Hd|]. split; [exact Hc|]. split; [exact Hdel|].
  split; [exact Hm|]. split.
  - intros k Hu. by apply (unchanged_in_none old_baseline new_baseline).
  - intros k ro rn h1 h2 Hro Hrn Hh1 Hh2.
    assert (Ho : k ∈ dom old_baseline) by (apply elem_of_dom; eauto).
    assert (Hn : k ∈ dom new_baseline) by (apply elem_of_dom; eauto).
    rewrite Hm, Hc, Hdel. split; [|tauto]. split.
    + intros (ro' & rn' & Hro' & Hrn' & Hne).
      assert (ro' = ro) as -> by congruence. assert (rn' = rn) as -> by congruence.
      rewrite (dict_get_present _ _ _ Hh1), (dict_get_present _ _ _ Hh2) in Hne.
      by apply py_ne_str.
    + intros Hne. exists ro, rn. repeat split; try done.
      rewrite (dict_get_present _ _ _ Hh1), (dict_get_present _ _ _ Hh2).
      by apply py_ne_str.
Qed.

Lemma comparator_classifies_witness :
  ∃ d, visualize_integrity_check old_demo new_demo = Ok d ∧
       ("a.txt" ∉ modified d) ∧ ("a.txt" ∉ created d) ∧ ("a.txt" ∉ deleted d) ∧
       "b.txt" ∈ modified d.
Proof.
  destruct (comparator_classifies old_demo new_demo)
    as (d & Hd & _ & _ & _ & Hsame & Hstr).
  exists d. split; [exact Hd|].
  destruct (Hsame "a.txt") as (Ha1 & Ha2 & Ha3).
  { eexists _, _. split; [reflexivity|]. split; [reflexivity|]. reflexivity. }
  destruct (Hstr "b.txt" _ _ "bb" "b2" eq_refl eq_refl eq_refl eq_refl)
    as (Hb & _ & _).
  repeat split; try assumption. apply Hb. discriminate.
Defined.

(** C2.  The three lists are pairwise disjoint, and every path of either
    snapshot is in exactly one of Modified, Deleted, Created, Unchanged. *)
Theorem comparator_partition (old_baseline new_baseline : snapshot) :
  ∃ d, visualize_integrity_check old_baseline new_baseline = Ok d ∧
    (∀ k, ¬ (k ∈ modified d ∧ k ∈ created d)) ∧
    (∀ k, ¬ (k ∈ modified d ∧ k ∈ deleted d)) ∧
    (∀ k, ¬ (k ∈ created d ∧ k ∈ deleted d)) ∧
    (∀ k, k ∈ dom old_baseline ∪ dom new_baseline →
          exactly_one (k ∈ modified d) (k ∈ deleted d) (k ∈ created d)
                      (unchanged old_baseline new_baseline k)).
Proof.
  destruct (visualize_integrity_check_spec old_baseline new_baseline)
    as (d & Hd & Hc & Hdel & Hm).
  exists d. split; [exact Hd|].
  assert (Hmd : ∀ k, k ∈ modified d → k ∈ dom old_baseline ∧ k ∈ dom new_baseline).
  { intros k Hk. apply Hm in Hk. by apply hash_differs_dom. }
  split; [|split; [|split]].
  - intros k [H1 H2]. apply Hmd in H1. apply Hc in H2. tauto.
  - intros k [H1 H2]. apply Hmd in H1. apply Hdel in H2. tauto.
  - intros k [H1 H2]. apply Hc in H1. apply Hdel in H2. tauto.
  - intros k Hk. unfold exactly_one. rewrite Hc, Hdel, Hm.
    pose proof (unchanged_not_differs old_baseline new_baseline k) as Hexcl.
    pose proof (unchanged_dom old_baseline new_baseline k) as Hud.
    pose proof (hash_differs_dom old_baseline new_baseline k) as Hdd.
    pose proof (common_differs_or_unchanged old_baseline new_baseline k) as Hcases.
    apply elem_of_union in Hk.
    destruct (decide (k ∈ dom old_baseline)), (decide (k ∈ dom new_baseline));
      tauto.
Qed.

Lemma comparator_partition_witness :
  ∃ d, visualize_integrity_check old_demo new_demo = Ok d ∧
       exactly_one ("c.txt" ∈ modified d) ("c.txt" ∈ deleted d)
                   ("c.txt" ∈ created d) (unchanged old_demo new_demo "c.txt").
Proof.
  destruct (comparator_partition old_demo new_demo) as (d & Hd & _ & _ & _ & Hx).
  exists d. split; [exact Hd|]. apply Hx.
  apply elem_of_union_l, elem_of_dom. eexists. reflexivity.
Defined.

(** C10 as the claim states it, refuted: a record without the field
    against a record whose ['hash'] is [None] (JSON [null]) is not
    Modified, both lookups giving [None]. *)
Lemma missing_hash_against_null_not_modified :
  ¬ (∀ (old_baseline new_baseline : snapshot) k ro rn v,
       old_baseline !! k = Some ro → new_baseline !! k = Some rn →
       ro !! "hash" = None → rn !! "hash" = Some v →
       ∃ d, visualize_integrity_check old_baseline new_baseline = Ok d ∧
            k ∈ modified d).
Proof.
  intros Hclaim.
  destruct (Hclaim {[ "f" := ∅ ]} {[ "f" := {[ "hash" := PyNone ]} ]}
              "f" ∅ {[ "hash" := PyNone ]} PyNone) as (d & Hd & Hin);
    [reflexivity..|].
  vm_compute in Hd. injection Hd as <-. simpl in Hin. by apply not_elem_of_nil in Hin.
Qed.

(** C10, amended.  The comparator never raises; for a path in both
    snapshots, if both records lack ['hash'] the path is unchanged and in
    none of the three lists, and if exactly one record lacks it the path is
    Modified exactly when the value the other record holds is not [None]. *)
Theorem comparator_missing_hash (old_baseline new_baseline : snapshot) :
  ∃ d, visualize_integrity_check old_baseline new_baseline = Ok d ∧
    ∀ k ro rn, old_baseline !! k = Some ro → new_baseline !! k = Some rn →
      (ro !! "hash" = None → rn !! "hash" = None →
         unchanged old_baseline new_baseline k ∧
         (k ∉ modified d) ∧ (k ∉ created d) ∧ (k ∉ deleted d)) ∧
      (∀ v, (ro !! "hash" = None ∧ rn !! "hash" = Some v) ∨
            (ro !! "hash" = Some v ∧ rn !! "hash" = None) →
            (k ∈ modified d ↔ v ≠ PyNone)).
Proof.
  destruct (visualize_integrity_check_spec old_baseline new_baseline)
    as (d & Hd & Hc & Hdel & Hm).
  exists d. split; [exact Hd|]. intros k ro rn Hro Hrn. split.
  - intros Ho Hn.
    assert (Hu : unchanged old_baseline new_baseline k).
    { exists ro, rn. repeat split; try done.
      by rewrite (dict_get_absent _ _ Ho), (dict_get_absent _ _ Hn). }
    split; [exact Hu | by apply (unchanged_in_none old_baseline new_baseline)].
  - intros v Hv. rewrite Hm. unfold hash_differs. split.
    + intros (ro' & rn' & Hro' & Hrn' & Hne).
      assert (ro' = ro) as -> by congruence. assert (rn' = rn) as -> by congruence.
      destruct Hv as [[Ho Hn]|[Ho Hn]].
      * rewrite (dict_get_absent _ _ Ho), (dict_get_present _ _ _ Hn) in Hne.
        by apply py_ne_None_l.
      * rewrite (dict_get_present _ _ _ Ho), (dict_get_absent _ _ Hn) in Hne.
        by apply py_ne_None_r.
    + intros Hne. exists ro, rn. repeat split; try done.
      destruct Hv as [[Ho Hn]|[Ho Hn]].
      * rewrite (dict_get_absent _ _ Ho), (dict_get_present _ _ _ Hn).
        by apply py_ne_None_l.
      * rewrite (dict_get_present _ _ _ Ho), (dict_get_absent _ _ Hn).
        by apply py_ne_None_r.
Qed.

Lemma comparator_missing_hash_witness :
  ∃ d, visualize_integrity_check {[ "f" := ∅ ]}
         {[ "f" := {[ "hash" := PyStr "aa" ]} ]} = Ok d ∧
       "f" ∈ modified d.
Proof.
  destruct (comparator_missing_hash {[ "f" := ∅ ]}
              {[ "f" := {[ "hash" := PyStr "aa" ]} ]}) as (d & Hd & Hk).
  exists d. split; [exact Hd|].
  destruct (Hk "f" ∅ {[ "hash" := PyStr "aa" ]} eq_refl eq_refl) as [_ Hone].
  apply (Hone (PyStr "aa")); [left; split; reflexivity | discriminate].
Defined.

End ComparatorFacts.

(* ================================================================== *)
(** * Properties of the live aggregator                                *)
(* ================================================================== *)

Section LiveMonitorFacts.
Import LiveMonitor.
Context `{Externals}.
Implicit Types (self : AegisFileWatcher) (n : notification)
  (ns : list notification) (l r : list log_entry).

(** The [k] last elements of a list. *)
Local Abbreviation lastn k l := (drop (length l - k) l).

Lemma max_events_log_event self timestamp event_type filepath :
  max_events (log_event self timestamp event_type filepath) = max_events self.
Proof. reflexivity. Qed.

Lemma max_events_dispatch self n : max_events (dispatch self n) = max_events self.
Proof.
  unfold dispatch, on_modified, on_created, on_deleted.
  by destruct (n_kind n), (is_directory (n_event n)).
Qed.

(** A handler either ignores the event or logs it under its own name. *)
Lemma dispatch_entry_of self n :
  dispatch self n =
  match entry_of n with
  | None => self
  | Some e =>
      {| events := if (max_events self <? length (events self ++ [e]))%nat
                   then pop0 (events self ++ [e]) else events self ++ [e];
         max_events := max_events self |}
  end.
Proof.
  unfold dispatch, entry_of, on_modified, on_created, on_deleted, log_event.
  by destruct (n_kind n), (is_directory (n_event n)).
Qed.

(** On a log within its capacity, append-then-evict keeps the last
    [max_events] entries. *)
Lemma evict_lastn (cap : nat) l (e : log_entry) :
  (length l ≤ cap)%nat →
  (if (cap <? length (l ++ [e]))%nat then pop0 (l ++ [e]) else l ++ [e]) =
  lastn cap (l ++ [e]).
Proof.
  intros Hl. rewrite length_app. cbn [length].
  destruct (Nat.ltb_spec cap (length l + 1)) as [Hlt|Hge].
  - replace (length l + 1 - cap)%nat with 1%nat by lia. by destruct l.
  - replace (length l + 1 - cap)%nat with 0%nat by lia. done.
Qed.

Lemma lastn_app_lastn (cap : nat) l r : lastn cap (lastn cap l ++ r) = lastn cap (l ++ r).
Proof.
  rewrite !length_app, length_drop.
  destruct (Nat.le_gt_cases (length l) cap) as [Hle|Hgt].
  - replace (length l - cap)%nat with 0%nat by lia. cbn [drop].
    by replace (length l - 0)%nat with (length l) by lia.
  - replace (length l - (length l - cap) + length r - cap)%nat
      with (length r) by lia.
    replace (length l + length r - cap)%nat
      with ((length l - cap) + length r)%nat by lia.
    rewrite <- drop_drop. f_equal.
    rewrite drop_app_le by lia. done.
Qed.

Lemma length_lastn (cap : nat) l : length (lastn cap l) = Nat.min (length l) cap.
Proof. rewrite length_drop. lia. Qed.

(** The log after any stream, from any state within capacity. *)
Lemma feed_events self ns :
  (length (events self) ≤ max_events self)%nat →
  max_events (feed self ns) = max_events self ∧
  events (feed self ns) = lastn (max_events self) (events self ++ appended ns).
Proof.
  revert self. induction ns as [|n ns IH]; intros self Hcap.
  - cbn. split; [done|]. rewrite app_nil_r.
    by replace (length (events self) - max_events self)%nat with 0%nat by lia.
  - cbn [feed fold_left]. fold (feed (dispatch self n) ns).
    unfold appended. cbn [omap list_omap]. fold (appended ns).
    rewrite dispatch_entry_of. destruct (entry_of n) as [e|]; [|by apply IH].
    rewrite evict_lastn by done.
    match goal with |- context [feed ?s ns] => destruct (IH s) as [Hm He] end.
    { cbn. rewrite length_lastn. lia. }
    cbn in Hm, He. split; [done|].
    rewrite He, lastn_app_lastn. by rewrite <- app_assoc.
Qed.

(** C3.  After any sequence of notifications delivered to a fresh
    watcher, the log holds at most 50 entries, and they are the
    min(total, 50) most recently appended ones in arrival order, where
    total counts the entries appended (directory notifications append
    none).  After 60 notifications of regular files the log holds exactly
    50 entries, the ones of notifications 11 to 60 in arrival order. *)
Theorem live_log_bounded ns :
  let log := events (feed init ns) in
  (length log ≤ 50)%nat ∧
  length log = Nat.min (length (appended ns)) 50 ∧
  log = drop (length (appended ns) - 50) (appended ns) ∧
  (length ns = 60%nat →
   forallb (λ n, negb (is_directory (n_event n))) ns = true →
   length log = 50%nat ∧
   ∀ i, (i < 50)%nat → Some <$> log !! i = entry_of <$> ns !! (10 + i)%nat).
Proof.
  destruct (feed_events init ns) as [_ He]; [cbn; lia|]. cbn in He.
  cbn zeta. rewrite He.
  split; [rewrite length_drop; lia|].
  split; [rewrite length_drop; lia|].
  split; [done|].
  intros Hlen Hfiles.
  assert (Happ : Some <$> appended ns = entry_of <$> ns).
  { clear Hlen He. unfold appended. induction ns as [|n ns IH]; [done|].
    cbn in Hfiles. apply andb_true_iff in Hfiles as [Hn Hns].
    apply negb_true_iff in Hn.
    assert (He : ∃ e, entry_of n = Some e) by (unfold entry_of; rewrite Hn; eauto).
    destruct He as [e He]. cbn. rewrite He. cbn. f_equal. by apply IH. }
  assert (Hl : length (appended ns) = 60%nat).
  { rewrite <- (length_fmap Some), Happ, length_fmap. done. }
  rewrite Hl. split; [rewrite length_drop; lia|].
  intros i Hi. rewrite lookup_drop.
  replace (60 - 50 + i)%nat with (10 + i)%nat by lia.
  by rewrite <- !list_lookup_fmap, Happ.
Qed.

(** C7.  A notification for a directory leaves the watcher as it is.  A
    notification for a regular file appends exactly one entry, carrying the
    name of the notification's kind, its path and the time of arrival: the
    new log is the old one followed by that entry, without its first
    element when that makes it longer than [max_events]. *)
Theorem notification_logged self n :
  (is_directory (n_event n) = true → dispatch self n = self) ∧
  (is_directory (n_event n) = false →
   ∃ e, e_type e = kind_name (n_kind n) ∧
        e_path e = src_path (n_event n) ∧
        e_time e = n_now n ∧
        max_events (dispatch self n) = max_events self ∧
        events (dispatch self n) =
          (if (max_events self <? length (events self ++ [e]))%nat
           then pop0 (events self ++ [e]) else events self ++ [e]) ∧
        ((length (events self) < max_events self)%nat →
         events (dispatch self n) = events self ++ [e]) ∧
        ((0 < length (events self))%nat →
         length (events self) = max_events self →
         events (dispatch self n) = pop0 (events self) ++ [e]) ∧
        ((0 < max_events self)%nat → last (events (dispatch self n)) = Some e)).
Proof.
  rewrite dispatch_entry_of. unfold entry_of. split; intros Hd; rewrite Hd.
  - done.
  - exists (make_entry (n_now n) (kind_name (n_kind n)) (src_path (n_event n))).
    split; [reflexivity|]. split; [reflexivity|]. split; [reflexivity|].
    split; [reflexivity|]. split; [reflexivity|]. cbn [events].
    set (e := make_entry _ _ _). rewrite length_app. cbn [length].
    split; [|split].
    + intros Hlt. destruct (Nat.ltb_spec (max_events self) (length (events self) + 1));
        [lia | done].
    + intros Hpos Heq.
      destruct (Nat.ltb_spec (max_events self) (length (events self) + 1)); [|lia].
      destruct (events self); [cbn in Hpos; lia | done].
    + intros Hpos.
      destruct (Nat.ltb_spec (max_events self) (length (events self) + 1));
        [|apply last_snoc].
      destruct (events self) as [|x l]; [cbn in *; lia|]. cbn. apply last_snoc.
Qed.

End LiveMonitorFacts.

Section LiveMonitorExamples.
Import LiveMonitor.

Lemma live_log_bounded_witness :
  length (events (feed init sixty)) = 50%nat ∧
  ∀ i, (i < 50)%nat →
       Some <$> events (feed init sixty) !! i = entry_of <$> sixty !! (10 + i)%nat.
Proof.
  destruct (live_log_bounded sixty) as (_ & _ & _ & H60).
  apply H60; reflexivity.
Defined.

Lemma notification_logged_witness :
  dispatch (feed init sixty) on_created_dir = feed init sixty ∧
  ∃ e, e_type e = "CREATED" ∧ e_path e = "watched/new.txt" ∧
       last (events (dispatch (feed init sixty) on_created_file)) = Some e.
Proof.
  split.
  - apply (notification_logged (feed init sixty) on_created_dir). reflexivity.
  - destruct (notification_logged (feed init sixty) on_created_file) as [_ Hfile].
    destruct (Hfile eq_refl) as (e & Ht & Hp & _ & _ & _ & _ & _ & Hlast).
    exists e. split; [exact Ht|]. split; [exact Hp|].
    apply Hlast. vm_compute. lia.
Defined.

End LiveMonitorExamples.

(* ================================================================== *)
(** * Properties of the baseline store                                 *)
(* ================================================================== *)

Section StoreFacts.
Import Agent.
Context `{Externals}.

Lemma with_console_app (w : world) (l1 l2 : list line) :
  with_console (with_console w l1) l2 = with_console w (l1 ++ l2).
Proof. unfold with_console. cbn. by rewrite <- app_assoc. Qed.

Lemma with_console_nil (w : world) : with_console w [] = w.
Proof. destruct w. unfold with_console. cbn. by rewrite app_nil_r. Qed.

(** The four ways [load_baseline] ends on a path that is absent or a
    readable file. *)
Lemma load_baseline_missing (filepath : string) (w : world) :
  fs w !! filepath = None → load_baseline filepath w = (w, Ok ∅).
Proof.
  intros Hno. unfold load_baseline, try_except, path_exists, mbind, io_bind.
  rewrite Hno. rewrite bool_decide_eq_false_2 by (by intros [? ?]). done.
Qed.

Lemma load_baseline_file (filepath : string) (w : world) (f : file) :
  fs w !! filepath = Some (File f) → readable f = true →
  load_baseline filepath w =
  match json_load (content f) with
  | inr data => (with_console w [BaselineLoaded filepath (size data)], Ok data)
  | inl (InvalidJSON msg) =>
      (with_console w [BaselineCorrupted (JSONDecodeError msg)],
       Raise (Exception ("Failed to parse baseline file " +:+ filepath)
                (JSONDecodeError msg)))
  | inl InvalidText => (w, Raise UnicodeDecodeError)
  end.
Proof.
  intros Hf Hr.
  unfold load_baseline, try_except, path_exists, read_file, json_load_io,
    mbind, io_bind.
  rewrite Hf. rewrite bool_decide_eq_true_2 by eauto. cbn. rewrite Hf, Hr.
  by destruct (json_load (content f)) as [[msg|]|data].
Qed.

(** [load_baseline] raises nothing but exceptions derived from
    [Exception], and touches only the console. *)
Lemma load_baseline_frame (filepath : string) (w w' : world) (r : result snapshot) :
  load_baseline filepath w = (w', r) →
  fs w' = fs w ∧ calls w' = calls w ∧ clock w' = clock w ∧
  (∃ ls, console w' = console w ++ ls) ∧
  (∀ e, r = Raise e → is_Exception e = true).
Proof.
  assert (Hnil : ∃ ls, console w = console w ++ ls)
    by (exists []; by rewrite app_nil_r).
  destruct (fs w !! filepath) as [[f|]|] eqn:Hf.
  - destruct (readable f) eqn:Hr.
    + rewrite (load_baseline_file _ _ _ Hf Hr).
      destruct (json_load (content f)) as [[msg|]|data]; intros [= <- <-]; cbn;
        (split; [done|]); (split; [done|]); (split; [done|]);
        (split; [by eauto | by intros e [= <-] || by intros e [=]]).
    + unfold load_baseline, try_except, path_exists, read_file, mbind, io_bind.
      rewrite Hf. rewrite bool_decide_eq_true_2 by eauto. cbn. rewrite Hf, Hr.
      intros [= <- <-]. repeat split; [done|]. by intros e [= <-].
  - unfold load_baseline, try_except, path_exists, read_file, mbind, io_bind.
    rewrite Hf. rewrite bool_decide_eq_true_2 by eauto. cbn. rewrite Hf.
    intros [= <- <-]. repeat split; [done|]. by intros e [= <-].
  - rewrite (load_baseline_missing _ _ Hf). intros [= <- <-].
    repeat split; [done|]. by intros e [=].
Qed.

(** What [save_baseline] does on a path that is absent or a writable
    file. *)
Lemma save_baseline_writes (filepath : string) (data : gmap string FileRecord)
    (w : world) (keep_readable : bool) :
  (fs w !! filepath = None ∧ keep_readable = true) ∨
  (∃ f, fs w !! filepath = Some (File f) ∧ writable f = true ∧
        keep_readable = readable f) →
  let text := json_dump 4 (asdict <$> data) in
  save_baseline filepath data w =
  ({| fs := <[filepath := File {| readable := keep_readable; writable := true;
                                  content := text; st_mtime := clock w |}]> (fs w);
      console := console w ++ [BaselineSaved filepath (Z.of_nat (String.length text))];
      clock := clock w; calls := calls w |}, Ok tt).
Proof.
  intros Hp text.
  unfold save_baseline, try_except, write_file, os_stat, print, with_console,
    mbind, io_bind.
  destruct Hp as [[Hno ->]|(f & Hf & Hw & ->)].
  - rewrite Hno. cbn. by rewrite lookup_insert_eq.
  - rewrite Hf, Hw. cbn. by rewrite lookup_insert_eq.
Qed.

Lemma asdict_fields (e : FileRecord) :
  asdict e !! "path" = Some (PyStr (r_path e)) ∧
  asdict e !! "hash" = Some (PyStr (r_hash e)) ∧
  asdict e !! "size" = Some (PyInt (r_size e)) ∧
  asdict e !! "mtime" = Some (PyFloat (r_mtime e)) ∧
  dom (asdict e) = ({[ "path"; "hash"; "size"; "mtime" ]} : gset string).
Proof.
  unfold asdict. split_and!; by simplify_map_eq.
Qed.

(** C4.  On a path where no file exists [load_baseline] returns the empty
    mapping and raises nothing; on a readable file whose text [json.load]
    rejects it raises, with an exception derived from [Exception] and for
    text that is not JSON with the message of a parse failure, and it
    returns no snapshot at all: the two outcomes differ. *)
Theorem load_missing_vs_corrupt (filepath : string) (w : world) :
  (fs w !! filepath = None → load_baseline filepath w = (w, Ok ∅)) ∧
  (∀ f err, fs w !! filepath = Some (File f) → readable f = true →
     json_load (content f) = inl err →
     ∃ w' e, load_baseline filepath w = (w', Raise e) ∧
             is_Exception e = true ∧ fs w' = fs w ∧
             (∀ w'' d, load_baseline filepath w ≠ (w'', Ok d)) ∧
             (∀ msg, err = InvalidJSON msg →
                e = Exception ("Failed to parse baseline file " +:+ filepath)
                      (JSONDecodeError msg) ∧
                console w' = console w ++ [BaselineCorrupted (JSONDecodeError msg)])).
Proof.
  split; [apply load_baseline_missing|].
  intros f err Hf Hr Herr. rewrite (load_baseline_file _ _ _ Hf Hr), Herr.
  destruct err as [msg|]; eexists _, _; (split; [reflexivity|]);
    (split; [done|]); (split; [done|]); (split; [done|]).
  - by intros msg' [= <-].
  - by intros msg' [=].
Qed.


End StoreFacts.

Section StoreExamples.
Import Agent.

Lemma bits_to_pos_to_bits (p : positive) : bits_to_pos (pos_to_bits p) = Some p.
Proof. induction p as [p IH|p IH|]; cbn; [by rewrite IH..|done]. Qed.

Lemma demo_roundtrip : json_roundtrip.
Proof.
  intros indent d. cbn. unfold demo_load, demo_dump.
  rewrite bits_to_pos_to_bits. cbn. by rewrite decode_encode.
Qed.

Lemma load_missing_vs_corrupt_witness :
  load_baseline "baseline.json" world_fresh = (world_fresh, Ok ∅) ∧
  ∃ w' e, load_baseline "baseline.json" world_corrupt = (w', Raise e) ∧
          is_Exception e = true.
Proof.
  split.
  - apply (load_missing_vs_corrupt "baseline.json" world_fresh). reflexivity.
  - destruct (load_missing_vs_corrupt "baseline.json" world_corrupt) as [_ Hc].
    destruct (Hc {| readable := true; writable := true;
                    content := "{ not json"; st_mtime := S754_zero false |}
                 (InvalidJSON "Expecting value"))
      as (w' & e & Hl & He & _); [reflexivity..|].
    exists w', e. split; [exact Hl | exact He].
Defined.


End StoreExamples.

(* ================================================================== *)
(** * Properties of the check flow                                     *)
(* ================================================================== *)

Section CheckFlowFacts.
Import Agent.
Context `{Externals} `{Engines}.

Lemma main_check_unfold (a : args) (w : world) :
  main_check a w =
  match try_except (check_try a) check_except (after_header a w) with
  | (w', Ok _) => print Shutdown w'
  | (w', Raise e) => (w', Raise e)
  end.
Proof.
  unfold main_check, mbind, io_bind, print, after_header. cbn.
  rewrite with_console_app. cbn. by destruct (try_except _ _ _) as [w' [[]|e]].
Qed.

Lemma last_with_console (w : world) (ls : list line) (l : line) :
  last (console (with_console w (ls ++ [l]))) = Some l.
Proof. cbn. by rewrite app_assoc, last_snoc. Qed.

(** With no baseline loaded, the [try] block prints its two lines and
    exits with status 1; nothing else happens. *)
Lemma check_try_empty (a : args) (w0 w1 : world) :
  load_baseline (baseline a) w0 = (w1, Ok ∅) →
  check_try a w0 =
  (with_console w1 [BaselineNotFoundOrEmpty (baseline a); RunInitFirst],
   Raise (SystemExit 1)).
Proof.
  intros Hl. unfold check_try, mbind, io_bind. rewrite Hl.
  unfold falsy. rewrite bool_decide_eq_true_2 by done. cbn.
  by rewrite with_console_app.
Qed.


Lemma write_file_cases (p text : string) (w w' : world) (r : result unit) :
  write_file p text w = (w', r) →
  (r = Ok tt ∧ console w' = console w) ∨
  (∃ e, r = Raise e ∧ is_Exception e = true).
Proof.
  unfold write_file. destruct (fs w !! p) as [[f|]|].
  - destruct (writable f); intros [= <- <-]; [by left | right; by eexists].
  - intros [= <- <-]. right. by eexists.
  - intros [= <- <-]. by left.
Qed.

(** [report_integrity_results] fails on writing the report, or ends on
    one of its two panels. *)
Lemma report_integrity_results_cases (results : report) (output_file : string)
    (w w' : world) (r : result bool) :
  report_integrity_results results output_file w = (w', r) →
  (∃ e, r = Raise e ∧ is_Exception e = true) ∨
  (r = Ok true ∧ outcome_of w' = Some Secure) ∨
  (r = Ok false ∧ outcome_of w' = Some Breach).
Proof.
  unfold report_integrity_results, mbind, io_bind.
  destruct (write_file _ _ w) as [w1 [[]|e]] eqn:Hw.
  - destruct (_ =? _)%nat; cbn; intros [= <- <-]; [right; left | right; right];
      (split; [done|]); unfold outcome_of; cbn; by rewrite last_snoc.
  - intros [= <- <-]. left. exists e. split; [done|].
    by destruct (write_file_cases _ _ _ _ _ Hw) as [[? _]|(e' & [= <-] & ?)].
Qed.

(** The [try] block never returns: it raises an exception for the handler,
    or exits after one of the three final messages. *)
Lemma check_try_cases (a : args) (w0 w' : world) (r : result unit) :
  engines_raise_Exception →
  check_try a w0 = (w', r) →
  (∃ e, r = Raise e ∧ is_Exception e = true) ∨
  (r = Raise (SystemExit 1) ∧ outcome_of w' = Some NoBaseline) ∨
  (r = Raise (SystemExit 0) ∧ outcome_of w' = Some Secure) ∨
  (r = Raise (SystemExit 1) ∧ outcome_of w' = Some Breach).
Proof.
  intros (Hget & Hcreate & Hcompare).
  unfold check_try, mbind, io_bind.
  destruct (load_baseline _ w0) as [w1 [old|e]] eqn:Hload; cycle 1.
  { intros [= <- <-]. left. exists e. split; [done|].
    by apply (load_baseline_frame _ _ _ _ Hload). }
  destruct (falsy old).
  { cbn. intros [= <- <-]. right. left. split; [done|].
    unfold outcome_of. cbn. by rewrite last_snoc. }
  cbn.
  destruct (get_file_list _ _) as [w2 [files|e]] eqn:Hg; cycle 1.
  { intros [= <- <-]. left. exists e. split; [done|]. by eapply Hget. }
  cbn.
  destruct (create_baseline _ _) as [w3 [raw|e]] eqn:Hc; cycle 1.
  { intros [= <- <-]. left. exists e. split; [done|]. by eapply Hcreate. }
  cbn.
  destruct (compare_baselines _ _ _) as [w4 [results|e]] eqn:Hcmp; cycle 1.
  { intros [= <- <-]. left. exists e. split; [done|]. by eapply Hcompare. }
  destruct (report_integrity_results _ _ w4) as [w5 [is_secure|e]] eqn:Hrep.
  - cbn. intros [= <- <-].
    destruct (report_integrity_results_cases _ _ _ _ _ Hrep)
      as [(e & [=] & _)|[[[= ->] Ho]|[[= ->] Ho]]]; right; right; [left|right]; done.
  - intros [= <- <-]. left. exists e. split; [done|].
    by destruct (report_integrity_results_cases _ _ _ _ _ Hrep)
      as [(e' & [= <-] & ?)|[[[=] _]|[[=] _]]].
Qed.


End CheckFlowFacts.

Section CheckFlowExamples.
Import Agent.

Lemma demo_engines_raise_Exception : engines_raise_Exception.
Proof.
  split; [|split].
  - intros c w w' e. cbn. unfold mret, io_ret. by intros [=].
  - intros l w w' e. cbn. unfold demo_create_baseline. by intros [=].
  - intros o n w w' e. cbn. unfold demo_compare.
    rewrite visualize_integrity_check_eq. by intros [=].
Qed.

Example main_check_secure :
  outcome_of (main_check args_demo world_secure).1 = Some Secure ∧
  exit_status (main_check args_demo world_secure).2 = 0.
Proof. vm_compute. done. Qed.

Example main_check_breach :
  outcome_of (main_check args_demo world_breach).1 = Some Breach ∧
  exit_status (main_check args_demo world_breach).2 = 1.
Proof. vm_compute. done. Qed.

Example main_check_fatal :
  outcome_of (main_check args_demo world_corrupt).1 = Some Fatal ∧
  exit_status (main_check args_demo world_corrupt).2 = 1.
Proof. vm_compute. done. Qed.




End CheckFlowExamples.

(* ================================================================== *)
(** * Properties of snapshot building                                  *)
(* ================================================================== *)

Section ScanFacts.
Import Scan.
Context `{Externals}.

Lemma append_nil_r (s : string) : s +:+ "" = s.
Proof.
  induction s as [|c s IH]; [done|].
  change (String c (s +:+ "") = String c s). by rewrite IH.
Qed.

Lemma append_assoc (s t u : string) : (s +:+ t) +:+ u = s +:+ t +:+ u.
Proof.
  induction s as [|c s IH]; [done|].
  change (String c ((s +:+ t) +:+ u) = String c (s +:+ t +:+ u)). by rewrite IH.
Qed.

(** A read returns a prefix and leaves the rest; with a positive size it
    returns nothing only at the end of the file. *)
Lemma read_spec (n : nat) (s chunk rest : string) :
  read n s = (chunk, rest) →
  chunk +:+ rest = s ∧
  (String.length chunk + String.length rest = String.length s)%nat ∧
  ((0 < n)%nat → chunk = "" → s = "").
Proof.
  revert s chunk rest. induction n as [|n IH]; intros s chunk rest.
  - destruct s; intros [= <- <-]; split_and!; (done || lia).
  - destruct s as [|c s]; cbn [read]; [by intros [= <- <-]|].
    destruct (read n s) as [a b] eqn:Hr. intros [= <- <-].
    destruct (IH s a b Hr) as (Happ & Hlen & _). split_and!.
    + change (String c (a +:+ b) = String c s). by rewrite Happ.
    + cbn. lia.
    + done.
Qed.

(** The chunk loop feeds the whole file to the hasher. *)
Lemma hash_loop_all (fuel : nat) (hasher f : string) :
  (String.length f < fuel)%nat → hash_loop fuel hasher f = hasher +:+ f.
Proof.
  revert hasher f. induction fuel as [|fuel IH]; intros hasher f Hlen; [lia|].
  cbn [hash_loop]. destruct (read chunk_size f) as [chunk rest] eqn:Hr.
  destruct (read_spec _ _ _ _ Hr) as (Happ & Hl & Hend).
  destruct (decide (chunk = "")) as [->|Hne].
  - rewrite Hend; [by rewrite append_nil_r | unfold chunk_size; lia | done].
  - rewrite IH.
    + by rewrite append_assoc, Happ.
    + destruct chunk; [done|]. cbn in Hl. lia.
Qed.

Lemma hashable_record_of (w : world) (p : string) :
  hashable w p = true ↔ is_Some (record_of w p).
Proof.
  unfold hashable, record_of.
  destruct (fs w !! p) as [[f|]|]; [destruct (readable f)|..]; split;
    (done || by intros [? ?] || eauto).
Qed.

(** One iteration of the loop: the file is recorded, or an error line is
    printed and the state kept. *)
Lemma scan_step (filepath : string) (st : snapshot * Z) (w : world) :
  try_except
    ('(r, size) ← hash_file filepath;
     mret (<[filepath := r]> st.1, st.2 + size))
    (λ e, if is_Exception e
          then Some (print (ScanError filepath e);; mret st)
          else None) w =
  match record_of w filepath with
  | Some r => (w, Ok (<[filepath := r]> st.1,
                      st.2 + default 0 (match r !! "size" with
                                        | Some (PyInt z) => Some z
                                        | _ => None
                                        end)))
  | None => (with_console w [ScanError filepath (scan_error w filepath)], Ok st)
  end.
Proof.
  unfold try_except, hash_file, os_stat, read_file, record_of, scan_error,
    mbind, io_bind.
  destruct (fs w !! filepath) as [[f|]|] eqn:Hf; cbn -[hash_loop]; rewrite ?Hf;
    [|done..].
  destruct (readable f); [|done]. cbn -[hash_loop].
  rewrite hash_loop_all by lia. cbn. by simplify_map_eq.
Qed.

(** The loop never raises.  It leaves the files as they are, records
    every file it can process, keeps what the state held for the other
    paths, and prints one error line per file it cannot process. *)
Lemma scan_loop_spec (files : list string) :
  ∀ (st : snapshot * Z) (w : world),
  ∃ errs st',
    scan_loop files st w = (with_console w errs, Ok st') ∧
    (∀ p, st'.1 !! p =
          match (if decide (p ∈ files) then record_of w p else None) with
          | Some r => Some r
          | None => st.1 !! p
          end) ∧
    (∀ l, l ∈ errs ↔
          ∃ p, p ∈ files ∧ hashable w p = false ∧ l = ScanError p (scan_error w p)).
Proof.
  induction files as [|fp files IH]; intros st w.
  - exists [], st. cbn. rewrite with_console_nil. split; [done|]. split.
    + intros p. by rewrite decide_False by apply not_elem_of_nil.
    + intros l. split; [by intros ?%not_elem_of_nil|].
      by intros (p & ?%not_elem_of_nil & _).
  - cbn [scan_loop]. unfold mbind at 1, io_bind at 1. rewrite scan_step.
    destruct (record_of w fp) as [r|] eqn:Hr.
    + destruct (IH (<[fp := r]> st.1,
                    st.2 + default 0 (match r !! "size" with
                                      | Some (PyInt z) => Some z
                                      | _ => None
                                      end)) w)
        as (errs & st' & Hloop & Hlook & Herrs).
      exists errs, st'. split; [exact Hloop|]. split.
      * intros p. rewrite Hlook. cbn [fst].
        destruct (decide (p = fp)) as [->|Hne].
        -- destruct (decide (fp ∈ fp :: files)) as [_|Hn]; [|by destruct Hn; left].
           rewrite Hr.
           destruct (decide (fp ∈ files)); [done|].
           by rewrite lookup_insert_eq.
        -- rewrite lookup_insert_ne by done.
           destruct (decide (p ∈ files)) as [Hin|Hnin].
           ++ destruct (decide (p ∈ fp :: files)) as [_|Hn]; [done|].
              destruct Hn. by right.
           ++ destruct (decide (p ∈ fp :: files)) as [Hc|_]; [|done].
              by apply elem_of_cons in Hc as [?|?].
      * intros l. rewrite Herrs. split.
        -- intros (p & Hp & Hh & ->). exists p. split; [by right|done].
        -- intros (p & Hp & Hh & ->). exists p. split; [|done].
           apply elem_of_cons in Hp as [->|Hp]; [|done].
           apply not_true_iff_false in Hh. exfalso. apply Hh.
           apply hashable_record_of. by rewrite Hr.
    + destruct (IH st (with_console w [ScanError fp (scan_error w fp)]))
        as (errs & st' & Hloop & Hlook & Herrs).
      exists (ScanError fp (scan_error w fp) :: errs), st'.
      rewrite Hloop, with_console_app. split; [done|]. split.
      * intros p. rewrite Hlook. change (record_of (with_console w _) p)
          with (record_of w p).
        destruct (decide (p = fp)) as [->|Hne].
        -- destruct (decide (fp ∈ fp :: files)) as [_|Hn]; [|by destruct Hn; left].
           rewrite Hr.
           by destruct (decide (fp ∈ files)).
        -- destruct (decide (p ∈ files)) as [Hin|Hnin].
           ++ destruct (decide (p ∈ fp :: files)) as [_|Hn]; [done|].
              destruct Hn. by right.
           ++ destruct (decide (p ∈ fp :: files)) as [Hc|_]; [|done].
              by apply elem_of_cons in Hc as [?|?].
      * intros l. rewrite elem_of_cons, Herrs.
        assert (Hfp : hashable w fp = false).
        { apply not_true_iff_false. intros Hh%hashable_record_of.
          rewrite Hr in Hh. by destruct Hh. }
        split.
        -- intros [->|(p & Hp & Hh & ->)].
           ++ exists fp. split; [left|done].
           ++ exists p. split; [by right|done].
        -- intros (p & Hp & Hh & ->).
           apply elem_of_cons in Hp as [->|Hp]; [by left|right].
           exists p. done.
Qed.

Lemma write_file_succeeds (p text : string) (w : world) :
  (fs w !! p = None ∨ ∃ f, fs w !! p = Some (File f) ∧ writable f = true) →
  ∃ w', write_file p text w = (w', Ok tt) ∧ console w' = console w.
Proof.
  unfold write_file. intros [Hno|(f & Hf & Hw)].
  - rewrite Hno. by eexists.
  - rewrite Hf, Hw. by eexists.
Qed.


End ScanFacts.

Section ScanExamples.
Import Scan.


Example scan_with_missing_file :
  ∃ w', animate_hashing_process ["a.txt"; "gone.txt"] "baseline_visual.json"
          world_fresh =
        (w', Ok {[ "a.txt" := {[ "path" := PyStr "a.txt";
                                 "hash" := PyStr "blake3:alpha";
                                 "size" := PyInt 5;
                                 "mtime" := PyFloat (S754_finite false 3 5) ]} ]}) ∧
        console w' =
        [ScanError "gone.txt" (FileNotFoundError "gone.txt");
         ScanSummary 1 5 "baseline_visual.json"].
Proof. eexists. split; vm_compute; reflexivity. Qed.


End ScanExamples.

(* ================================================================== *)
(** * More on the comparator                                           *)
(* ================================================================== *)

Section ComparatorMore.
Import Comparator.

Lemma SFeqb_refl (f : spec_float) : f ≠ S754_nan → SFeqb f f = true.
Proof.
  intros Hf. unfold SFeqb, SFcompare.
  destruct f as [s|s| |s m e]; try done; try by destruct s.
  destruct s; rewrite Z.compare_refl, Pos.compare_cont_refl; done.
Qed.

Lemma SFeqb_sym (f g : spec_float) : SFeqb f g = SFeqb g f.
Proof.
  unfold SFeqb, SFcompare.
  destruct f as [s|s| |s m e], g as [t|t| |t n e']; try done;
    try (by destruct s); try (by destruct t); try (by destruct s, t).
  destruct s, t; try done; rewrite (Z.compare_antisym e e');
    destruct (e ?= e'); cbn; try done;
    rewrite (ZC4 m n); by destruct (Pos.compare_cont Eq n m).
Qed.

(** [v == v] holds for every value but the float NaN. *)
Lemma py_eq_refl (v : pyval) : py_eq v v = true ↔ v ≠ PyFloat S754_nan.
Proof.
  destruct v as [|b|z|f|s]; cbn.
  - done.
  - split; [done|]. intros _. by destruct b.
  - split; [done|]. intros _. apply Z.eqb_refl.
  - split.
    + intros He [= ->]. done.
    + intros Hf. apply SFeqb_refl. congruence.
  - split; [done|]. intros _. apply String.eqb_refl.
Qed.

Lemma py_eq_sym (a b : pyval) : py_eq a b = py_eq b a.
Proof.
  destruct a as [|b1|z1|f1|s1], b as [|b2|z2|f2|s2]; cbn; try done.
  - apply Z.eqb_sym.
  - apply Z.eqb_sym.
  - apply Z.eqb_sym.
  - apply Z.eqb_sym.
  - apply SFeqb_sym.
  - apply String.eqb_sym.
Qed.

Lemma py_ne_sym (a b : pyval) : py_ne a b = py_ne b a.
Proof. unfold py_ne. by rewrite py_eq_sym. Qed.

Lemma length_sorted (l : list string) : length (sorted l) = length l.
Proof. unfold sorted. by rewrite merge_sort_Permutation. Qed.

(** X1.  The three lists the comparator builds are sorted in ascending
    order of their paths and hold no path twice. *)
Theorem delta_lists_sorted (old_baseline new_baseline : snapshot) :
  ∃ d, visualize_integrity_check old_baseline new_baseline = Ok d ∧
    Sorted str_le (modified d) ∧ NoDup (modified d) ∧
    Sorted str_le (created d) ∧ NoDup (created d) ∧
    Sorted str_le (deleted d) ∧ NoDup (deleted d).
Proof.
  destruct (visualize_integrity_check_lists old_baseline new_baseline)
    as (d & Hd & Hall).
  exists d. split; [exact Hd|].
  apply Forall_cons in Hall as [[Hn1 Hs1] Hall].
  apply Forall_cons in Hall as [[Hn2 Hs2] Hall].
  apply Forall_cons in Hall as [[Hn3 Hs3] _].
  done.
Qed.

(** X2.  Comparing a snapshot with itself gives no created and no deleted
    path, and a path is Modified exactly when its record's hash is the
    float NaN, the one value that differs from itself; so the comparison is
    empty exactly when no record has such a hash. *)
Theorem self_comparison (s : snapshot) :
  ∃ d, visualize_integrity_check s s = Ok d ∧
    created d = [] ∧ deleted d = [] ∧
    (∀ k, k ∈ modified d ↔
          ∃ r, s !! k = Some r ∧ dict_get r "hash" = PyFloat S754_nan) ∧
    (modified d = [] ↔
     ∀ k r, s !! k = Some r → dict_get r "hash" ≠ PyFloat S754_nan).
Proof.
  eexists. split; [apply visualize_integrity_check_eq|]. cbn.
  assert (Hm : ∀ k,
    k ∈ sorted (List.filter (hash_differs_b s s) (elements (dom s ∩ dom s))) ↔
    ∃ r, s !! k = Some r ∧ dict_get r "hash" = PyFloat S754_nan).
  { intros k. rewrite elem_of_modified. unfold hash_differs. split.
    - intros (ro & rn & Hro & Hrn & Hne). exists ro. split; [done|].
      assert (rn = ro) as -> by congruence.
      unfold py_ne in Hne. apply negb_true_iff in Hne.
      destruct (decide (dict_get ro "hash" = PyFloat S754_nan)) as [|Hnn]; [done|].
      apply py_eq_refl in Hnn. congruence.
    - intros (r & Hr & Hnan). exists r, r. split; [done|]. split; [done|].
      by rewrite Hnan. }
  split; [|split; [|split]].
  - by rewrite difference_diag_L, elements_empty.
  - by rewrite difference_diag_L, elements_empty.
  - exact Hm.
  - split.
    + intros Hnil k r Hr Hnan.
      assert (Hin : k ∈ sorted (List.filter (hash_differs_b s s)
                                  (elements (dom s ∩ dom s)))) by (apply Hm; eauto).
      rewrite Hnil in Hin. by apply not_elem_of_nil in Hin.
    + intros Hall. apply elem_of_nil_inv. intros k Hk.
      apply Hm in Hk as (r & Hr & Hnan). by apply (Hall k r).
Qed.

Lemma self_comparison_witness :
  ∃ d, visualize_integrity_check {[ "a.txt" := {[ "hash" := PyStr "aa" ]} ]}
         {[ "a.txt" := {[ "hash" := PyStr "aa" ]} ]} = Ok d ∧
       modified d = [] ∧ created d = [] ∧ deleted d = [].
Proof.
  destruct (self_comparison {[ "a.txt" := {[ "hash" := PyStr "aa" ]} ]})
    as (d & Hd & Hc & Hdel & _ & Hm).
  exists d. split; [exact Hd|]. split; [|split; [exact Hc | exact Hdel]].
  apply Hm. intros k r Hr. apply lookup_singleton_Some in Hr as [_ <-].
  discriminate.
Defined.

(** X3.  Swapping the two snapshots swaps Created and Deleted and leaves
    Modified as it is. *)
Theorem swap_duality (a b : snapshot) :
  ∃ d1 d2,
    visualize_integrity_check a b = Ok d1 ∧
    visualize_integrity_check b a = Ok d2 ∧
    created d1 = deleted d2 ∧ deleted d1 = created d2 ∧ modified d1 = modified d2.
Proof.
  eexists _, _. split; [apply visualize_integrity_check_eq|].
  split; [apply visualize_integrity_check_eq|]. cbn.
  split; [done|]. split; [done|].
  rewrite (comm_L (∩) (dom b) (dom a)). f_equal.
  apply List.filter_ext. intros k. unfold hash_differs_b.
  destruct (a !! k), (b !! k); try done. apply py_ne_sym.
Qed.

(** X4.  The sizes balance: the new snapshot has as many paths as the old
    one, plus the created, minus the deleted ones; Modified and Deleted
    together fit in the old snapshot, Modified and Created in the new. *)
Theorem delta_sizes (a b : snapshot) :
  ∃ d, visualize_integrity_check a b = Ok d ∧
    (size b + length (deleted d) = size a + length (created d))%nat ∧
    (length (modified d) + length (deleted d) ≤ size a)%nat ∧
    (length (modified d) + length (created d) ≤ size b)%nat.
Proof.
  eexists. split; [apply visualize_integrity_check_eq|]. cbn.
  rewrite !length_sorted. rewrite <- !(size_dom (D := gset string)).
  change (length (elements ?X)) with (size X).
  assert (Hf : (length (List.filter (hash_differs_b a b) (elements (dom a ∩ dom b)))
                ≤ size (dom a ∩ dom b))%nat) by apply List.filter_length_le.
  assert (H3 : size (dom a) = (size (dom a ∩ dom b) + size (dom a ∖ dom b))%nat).
  { rewrite <- size_union.
    - f_equal. apply set_eq. intros x. rewrite elem_of_union, elem_of_intersection,
        elem_of_difference. destruct (decide (x ∈ dom b)); tauto.
    - intros x. rewrite elem_of_intersection, elem_of_difference. tauto. }
  assert (H4 : size (dom b) = (size (dom a ∩ dom b) + size (dom b ∖ dom a))%nat).
  { rewrite <- size_union.
    - f_equal. apply set_eq. intros x. rewrite elem_of_union, elem_of_intersection,
        elem_of_difference. destruct (decide (x ∈ dom a)); tauto.
    - intros x. rewrite elem_of_intersection, elem_of_difference. tauto. }
  lia.
Qed.

(** X5.  Against an empty old snapshot every path of the new one is
    Created and nothing else is reported; against an empty new snapshot
    every path of the old one is Deleted. *)
Theorem empty_side (s : snapshot) :
  (∃ d, visualize_integrity_check ∅ s = Ok d ∧
        modified d = [] ∧ deleted d = [] ∧
        (∀ k, k ∈ created d ↔ k ∈ dom s) ∧ length (created d) = size s) ∧
  (∃ d, visualize_integrity_check s ∅ = Ok d ∧
        modified d = [] ∧ created d = [] ∧
        (∀ k, k ∈ deleted d ↔ k ∈ dom s) ∧ length (deleted d) = size s).
Proof.
  assert (Hd : dom s ∖ (∅ : gset string) = dom s).
  { apply set_eq. intros x. rewrite elem_of_difference, elem_of_empty. tauto. }
  assert (He : (∅ : gset string) ∖ dom s = ∅).
  { apply set_eq. intros x. rewrite elem_of_difference, elem_of_empty. tauto. }
  split; (eexists; split; [apply visualize_integrity_check_eq|]; cbn).
  - rewrite dom_empty_L, (left_absorb_L ∅ (∩)), elements_empty, Hd, He.
    rewrite elements_empty. split; [done|]. split; [done|]. split.
    + intros k. by rewrite elem_of_sorted, elem_of_elements.
    + by rewrite length_sorted, <- size_dom.
  - rewrite dom_empty_L, (right_absorb_L ∅ (∩)), elements_empty, Hd, He.
    rewrite elements_empty. split; [done|]. split; [done|]. split.
    + intros k. by rewrite elem_of_sorted, elem_of_elements.
    + by rewrite length_sorted, <- size_dom.
Qed.

End ComparatorMore.

Section TreeViewFacts.
Import Comparator TreeView.

Lemma elem_of_add_group (g : group) (paths : list string) (b : branch) :
  b ∈ add_group g paths ↔
  paths ≠ [] ∧
  b = Group g ((PathLeaf <$> take 10 paths) ++
               (if (10 <? length paths)%nat
                then [MoreLeaf (length paths - 10)] else [])).
Proof.
  destruct paths as [|p paths].
  - split; [by intros ?%not_elem_of_nil | by intros [? _]].
  - unfold add_group. rewrite list_elem_of_singleton. split; [done | by intros [_ ?]].
Qed.

Lemma elem_of_comparison_tree (d : delta) (b : branch) :
  b ∈ comparison_tree d ↔
  (∃ g, b ∈ add_group g (paths_of g d)) ∨
  (b = AllFilesMatch ∧ modified d = [] ∧ created d = [] ∧ deleted d = []).
Proof.
  unfold comparison_tree. rewrite !elem_of_app. split.
  - intros [Hb|[Hb|[Hb|Hb]]].
    + left. by exists ModifiedFiles.
    + left. by exists CreatedFiles.
    + left. by exists DeletedFiles.
    + right. destruct (modified d), (created d), (deleted d);
        try (by apply not_elem_of_nil in Hb). by apply list_elem_of_singleton in Hb.
  - intros [[[| |] Hb]|(-> & -> & -> & ->)]; [tauto..|].
    do 3 right. by apply list_elem_of_singleton.
Qed.

Lemma omap_path_leaves (paths : list string) :
  omap (λ l, match l with PathLeaf p => Some p | MoreLeaf _ => None end)
       (PathLeaf <$> paths) = paths.
Proof. induction paths as [|p paths IH]; [done|]. cbn. by rewrite IH. Qed.



End TreeViewFacts.

(* ================================================================== *)
(** * More on snapshot building                                        *)
(* ================================================================== *)

Section ScanMore.
Import Scan.
Context `{Externals}.

Lemma scan_step_total (filepath : string) (st : snapshot * Z) (w : world) :
  ∃ w' st', 
  try_except
    ('(r, size) ← hash_file filepath;
     mret (<[filepath := r]> st.1, st.2 + size))
    (λ e, if is_Exception e
          then Some (print (ScanError filepath e);; mret st)
          else None) w = (w', Ok st') ∧
  fs w' = fs w ∧ st'.2 = st.2 + counted (fs w) filepath.
Proof.
  rewrite scan_step. unfold record_of, counted.
  destruct (fs w !! filepath) as [[f|]|]; [destruct (readable f)|..];
    eexists _, _; (split; [reflexivity|]); split; try done; cbn; lia.
Qed.

Lemma scan_loop_total (files : list string) :
  ∀ (st : snapshot * Z) (w w' : world) (st' : snapshot * Z),
    scan_loop files st w = (w', Ok st') →
    st'.2 = st.2 + foldr (λ p acc, counted (fs w) p + acc) 0 files.
Proof.
  induction files as [|fp files IH]; intros st w w' st'.
  - cbn. intros [= <- <-]. lia.
  - cbn [scan_loop foldr]. unfold mbind at 1, io_bind at 1.
    destruct (scan_step_total fp st w) as (w1 & st1 & -> & Hfs & Ht).
    intros Hloop. apply IH in Hloop. rewrite Hloop, Ht, Hfs. lia.
Qed.

(** The function in terms of its loop: the scan, then the write of the
    snapshot, then the summary. *)
Lemma animate_hashing_process_eval (files : list string) (output_baseline : string)
    (w : world) :
  ∃ errs b,
    (∀ p, b !! p = if decide (p ∈ files) then record_of w p else None) ∧
    (∀ l, l ∈ errs ↔
          ∃ p, p ∈ files ∧ hashable w p = false ∧ l = ScanError p (scan_error w p)) ∧
    animate_hashing_process files output_baseline w =
    match write_file output_baseline (json_dump 2 b) (with_console w errs) with
    | (w1, Ok _) =>
        (with_console w1
           [ScanSummary (size b)
              (foldr (λ p acc, counted (fs w) p + acc) 0 files) output_baseline],
         Ok b)
    | (w1, Raise e) => (w1, Raise e)
    end.
Proof.
  destruct (scan_loop_spec files (∅, 0) w) as (errs & [b total] & Hloop & Hlook & Herrs).
  exists errs, b. split; [|split; [exact Herrs|]].
  - intros p. rewrite Hlook. cbn. rewrite lookup_empty.
    by destruct (decide (p ∈ files)); [destruct (record_of w p)|].
  - pose proof (scan_loop_total _ _ _ _ _ Hloop) as Ht. cbn in Ht.
    unfold animate_hashing_process, mbind, io_bind. rewrite Hloop.
    destruct (write_file _ _ _) as [w1 [[]|e]]; [|done]. cbn. by rewrite Ht.
Qed.

(** X7.  Whatever the size of a readable file, the chunk loop feeds the
    hasher all its bytes in order, so the record stored for the file holds
    the digest of the whole content, its size in bytes, its modification
    time and its path. *)
Theorem chunk_loop_feeds_whole_file (filepath : string) (w : world) (f : file) :
  fs w !! filepath = Some (File f) → readable f = true →
  (∀ hasher, hash_loop (S (String.length (content f))) hasher (content f)
             = hasher +:+ content f) ∧
  ∃ r, hash_file filepath w = (w, Ok (r, Z.of_nat (String.length (content f)))) ∧
       r !! "hash" = Some (PyStr (blake3_hexdigest (content f))) ∧
       r !! "size" = Some (PyInt (Z.of_nat (String.length (content f)))) ∧
       r !! "mtime" = Some (PyFloat (st_mtime f)) ∧
       r !! "path" = Some (PyStr filepath).
Proof.
  intros Hf Hr. split; [intros hasher; by rewrite hash_loop_all by lia|].
  unfold hash_file, os_stat, read_file, mbind, io_bind. rewrite Hf. cbn -[hash_loop].
  rewrite Hf, Hr. cbn -[hash_loop]. rewrite hash_loop_all by lia. cbn.
  eexists. split; [reflexivity|]. split_and!; by simplify_map_eq.
Qed.





End ScanMore.

Section ScanMoreExamples.
Import Scan.

Lemma chunk_loop_feeds_whole_file_witness :
  ∃ r, hash_file "a.txt" world_fresh = (world_fresh, Ok (r, 5)) ∧
       r !! "hash" = Some (PyStr "blake3:alpha").
Proof.
  destruct (chunk_loop_feeds_whole_file "a.txt" world_fresh file_a)
    as [_ (r & Hr & Hh & _)]; [reflexivity..|].
  exists r. split; [exact Hr | exact Hh].
Defined.





End ScanMoreExamples.

(* ================================================================== *)
(** * More on the baseline store and the report                        *)
(* ================================================================== *)

Section StoreMore.
Import Agent.
Context `{Externals}.


(** X13.  [load_baseline] wraps only a JSON parse failure: on a directory,
    on a file that cannot be read, and on bytes that are not text, the
    original exception reaches the caller as it is and nothing is
    printed. *)
Theorem load_baseline_raw_errors (filepath : string) (w : world) :
  (fs w !! filepath = Some Dir →
   load_baseline filepath w = (w, Raise (IsADirectoryError filepath))) ∧
  (∀ f, fs w !! filepath = Some (File f) → readable f = false →
   load_baseline filepath w = (w, Raise (PermissionError filepath))) ∧
  (∀ f, fs w !! filepath = Some (File f) → readable f = true →
   json_load (content f) = inl InvalidText →
   load_baseline filepath w = (w, Raise UnicodeDecodeError)).
Proof.
  split_and!.
  - intros Hd. unfold load_baseline, try_except, path_exists, read_file, mbind, io_bind.
    rewrite Hd. rewrite bool_decide_eq_true_2 by eauto. cbn. by rewrite Hd.
  - intros f Hf Hr.
    unfold load_baseline, try_except, path_exists, read_file, mbind, io_bind.
    rewrite Hf. rewrite bool_decide_eq_true_2 by eauto. cbn. by rewrite Hf, Hr.
  - intros f Hf Hr Hj. by rewrite (load_baseline_file _ _ _ Hf Hr), Hj.
Qed.


(** X15.  [load_baseline] only reads: it leaves the files as they are,
    prints at most one line, raises nothing but exceptions derived from
    [Exception], and when it returns a snapshot a second load returns the
    same one. *)
Theorem load_baseline_reads_only (filepath : string) (w : world) :
  ∃ w' r,
    load_baseline filepath w = (w', r) ∧
    fs w' = fs w ∧ calls w' = calls w ∧ clock w' = clock w ∧
    (∃ ls, console w' = console w ++ ls ∧ (length ls ≤ 1)%nat) ∧
    (∀ e, r = Raise e → is_Exception e = true) ∧
    (∀ d, r = Ok d → ∃ w'', load_baseline filepath w' = (w'', Ok d)).
Proof.
  assert (Hnil : ∃ ls, console w = console w ++ ls ∧ (length ls ≤ 1)%nat).
  { exists []. rewrite app_nil_r. split; [done | cbn; lia]. }
  destruct (fs w !! filepath) as [[f|]|] eqn:Hf.
  - destruct (readable f) eqn:Hr.
    + rewrite (load_baseline_file _ _ _ Hf Hr).
      destruct (json_load (content f)) as [[msg|]|data] eqn:Hj; eexists _, _;
        (split; [reflexivity|]); split_and!; try done;
        try (by intros e [= <-]);
        try (eexists; split; [reflexivity | cbn; lia]).
      intros d [= <-]. eexists. rewrite (load_baseline_file _ _ f); [|done..].
      rewrite Hj. reflexivity.
    + unfold load_baseline, try_except, path_exists, read_file, mbind, io_bind.
      rewrite Hf. rewrite bool_decide_eq_true_2 by eauto. cbn. rewrite Hf, Hr.
      eexists _, _. split; [reflexivity|]. split_and!; try done. by intros e [= <-].
  - unfold load_baseline, try_except, path_exists, read_file, mbind, io_bind.
    rewrite Hf. rewrite bool_decide_eq_true_2 by eauto. cbn. rewrite Hf.
    eexists _, _. split; [reflexivity|]. split_and!; try done. by intros e [= <-].
  - rewrite (load_baseline_missing _ _ Hf). eexists _, _. split; [reflexivity|].
      split_and!; try done. intros d [= <-]. eexists.
      by rewrite (load_baseline_missing _ _ Hf).
Qed.

End StoreMore.

Section StoreMoreExamples.
Import Agent.


Lemma load_baseline_raw_errors_witness :
  load_baseline "baseline.json" world_baseline_dir =
  (world_baseline_dir, Raise (IsADirectoryError "baseline.json")).
Proof.
  apply (load_baseline_raw_errors "baseline.json" world_baseline_dir). reflexivity.
Defined.


Lemma load_baseline_reads_only_witness :
  ∃ w' d w'',
    load_baseline "baseline.json" world_secure = (w', Ok d) ∧
    load_baseline "baseline.json" w' = (w'', Ok d).
Proof.
  destruct (load_baseline_reads_only "baseline.json" world_secure)
    as (w' & r & Hl & _ & _ & _ & _ & _ & Hagain).
  assert (Hr : ∃ d, r = Ok d).
  { assert (Hc : (load_baseline "baseline.json" world_secure).2 = r) by by rewrite Hl.
    vm_compute in Hc. subst r. eauto. }
  destruct Hr as [d ->]. destruct (Hagain d eq_refl) as [w'' H2].
  exists w', d, w''. split; [exact Hl | exact H2].
Defined.


End StoreMoreExamples.

(* ================================================================== *)
(** * More on the check flow                                           *)
(* ================================================================== *)

Section CheckFlowMore.
Import Agent.
Context `{Externals} `{Engines}.

(** When [report_integrity_results] returns, the report is in its file and
    the value returned tells whether the three lists are empty. *)
Lemma report_integrity_results_returns (results : report) (output_file : string)
    (w w' : world) (b : bool) :
  report_integrity_results results output_file w = (w', Ok b) →
  (∃ f, fs w' !! output_file = Some (File f) ∧
        content f = json_dump_report 2 results) ∧
  (b = true ↔ report_get results "MODIFIED" = [] ∧
              report_get results "CREATED" = [] ∧
              report_get results "DELETED" = []) ∧
  outcome_of w' = Some (if b then Secure else Breach).
Proof.
  unfold report_integrity_results, write_file, mbind, io_bind.
  set (total := (length (report_get results "MODIFIED") +
                 length (report_get results "CREATED") +
                 length (report_get results "DELETED"))%nat).
  assert (Hb : (total =? 0)%nat = true ↔
               report_get results "MODIFIED" = [] ∧
               report_get results "CREATED" = [] ∧
               report_get results "DELETED" = []).
  { rewrite Nat.eqb_eq. subst total. rewrite <- !length_zero_iff_nil. lia. }
  destruct (fs w !! output_file) as [[f|]|]; [destruct (writable f)|..];
    try (by intros [=]);
    destruct (total =? 0)%nat eqn:Ht; cbn; intros [= <- <-]; cbn;
    (split; [eexists; split; [apply lookup_insert_eq | reflexivity]|]);
    (split; [by rewrite <- Hb|]); unfold outcome_of; cbn; by rewrite last_snoc.
Qed.

Lemma check_try_exit (a : args) (w0 w' : world) (c : Z) :
  engines_raise_Exception →
  check_try a w0 = (w', Raise (SystemExit c)) →
  (c = 1 ∧ outcome_of w' = Some NoBaseline) ∨
  (∃ results b f,
     fs w' !! output a = Some (File f) ∧
     content f = json_dump_report 2 results ∧
     (b = true ↔ report_get results "MODIFIED" = [] ∧
                 report_get results "CREATED" = [] ∧
                 report_get results "DELETED" = []) ∧
     c = (if b then 0 else 1) ∧
     outcome_of w' = Some (if b then Secure else Breach)).
Proof.
  intros (Hget & Hcreate & Hcompare).
  unfold check_try, mbind, io_bind.
  destruct (load_baseline _ w0) as [w1 [old|e]] eqn:Hload; cycle 1.
  { intros [= <- ->].
    destruct (load_baseline_frame _ _ _ _ Hload) as (_ & _ & _ & _ & He).
    by specialize (He _ eq_refl). }
  destruct (falsy old).
  { cbn. intros [= <- <-]. left. split; [done|].
    unfold outcome_of. cbn. by rewrite last_snoc. }
  cbn.
  destruct (get_file_list _ _) as [w2 [files|e]] eqn:Hg; cycle 1.
  { intros [= <- ->]. by apply Hget in Hg. }
  cbn.
  destruct (create_baseline _ _) as [w3 [raw|e]] eqn:Hc; cycle 1.
  { intros [= <- ->]. by apply Hcreate in Hc. }
  cbn.
  destruct (compare_baselines _ _ _) as [w4 [results|e]] eqn:Hcmp; cycle 1.
  { intros [= <- ->]. by apply Hcompare in Hcmp. }
  destruct (report_integrity_results _ _ w4) as [w5 [b|e]] eqn:Hrep.
  - cbn. intros [= <- <-]. right.
    destruct (report_integrity_results_returns _ _ _ _ _ Hrep) as ((f & Hf & Hcont) & Hb & Ho).
    exists results, b, f. done.
  - intros [= <- ->].
    by destruct (report_integrity_results_cases _ _ _ _ _ Hrep)
      as [(e' & [= <-] & ?)|[[[=] _]|[[=] _]]].
Qed.

(** X17.  When the engines raise nothing but exceptions derived from
    [Exception]: a check that exits with status 0 has written, at the
    output path, a report whose three lists are empty; a check that ends on
    the alert panel exits with status 1 and has written a report with a
    non-empty list. *)
Theorem exit_status_reflects_report (a : args) (w w' : world) (c : Z) :
  engines_raise_Exception →
  main_check a w = (w', Raise (SystemExit c)) →
  (c = 0 →
   outcome_of w' = Some Secure ∧
   ∃ results f,
     fs w' !! output a = Some (File f) ∧
     content f = json_dump_report 2 results ∧
     report_get results "MODIFIED" = [] ∧
     report_get results "CREATED" = [] ∧
     report_get results "DELETED" = []) ∧
  (outcome_of w' = Some Breach →
   c = 1 ∧
   ∃ results f,
     fs w' !! output a = Some (File f) ∧
     content f = json_dump_report 2 results ∧
     ¬ (report_get results "MODIFIED" = [] ∧
        report_get results "CREATED" = [] ∧
        report_get results "DELETED" = [])).
Proof.
  intros Heng. rewrite main_check_unfold. unfold try_except.
  destruct (check_try a (after_header a w)) as [w1 [[]|e]] eqn:Htry.
  { by destruct (check_try_cases _ _ _ _ Heng Htry)
      as [(e & [=] & _)|[[[=] _]|[[[=] _]|[[=] _]]]]. }
  unfold check_except. destruct (is_Exception e) eqn:He.
  - cbn. intros [= <- <-]. split; [done|].
    unfold outcome_of. cbn. by rewrite last_snoc.
  - destruct e; try done. intros [= <- <-].
    destruct (check_try_exit _ _ _ _ Heng Htry)
      as [[-> Ho]|(results & b & f & Hf & Hcont & Hb & -> & Ho)].
    + split; [done|]. rewrite Ho. done.
    + destruct b.
      * split; [|by rewrite Ho]. intros _. split; [done|].
        exists results, f. destruct Hb as [Hb _]. destruct (Hb eq_refl) as (?&?&?). done.
      * split; [done|]. intros _. split; [done|].
        exists results, f. split; [done|]. split; [done|].
        intros Hall. apply Hb in Hall. done.
Qed.


End CheckFlowMore.

Section CheckFlowMoreExamples.
Import Agent.

Lemma exit_status_reflects_report_witness :
  ∃ w' results f,
    main_check args_demo world_secure = (w', Raise (SystemExit 0)) ∧
    fs w' !! "integrity_report.json" = Some (File f) ∧
    content f = json_dump_report 2 results ∧
    report_get results "MODIFIED" = [].
Proof.
  assert (Hrun : main_check args_demo world_secure =
                 ((main_check args_demo world_secure).1, Raise (SystemExit 0)))
    by (vm_compute; reflexivity).
  destruct (exit_status_reflects_report args_demo world_secure _ 0
              demo_engines_raise_Exception Hrun) as [Hzero _].
  destruct (Hzero eq_refl) as (_ & results & f & Hf & Hc & Hm & _).
  eexists _, results, f. split; [exact Hrun|]. split; [exact Hf|].
  split; [exact Hc | exact Hm].
Defined.


End CheckFlowMoreExamples.

(* ================================================================== *)
(** * Properties of the live display                                   *)
(* ================================================================== *)

Section LiveDisplayFacts.
Import LiveMonitor LiveDisplay.
Context `{Externals}.

Lemma entry_of_shape (n : notification) (e : log_entry) :
  entry_of n = Some e →
  e_type e = kind_name (n_kind n) ∧ e_file e = Path_name (e_path e) ∧
  e_path e = src_path (n_event n) ∧ e_time e = n_now n.
Proof.
  unfold entry_of. destruct (is_directory (n_event n)); [done|].
  by intros [= <-].
Qed.

Lemma appended_shape (ns : list notification) (e : log_entry) :
  e ∈ appended ns →
  (e_type e = "MODIFIED" ∨ e_type e = "CREATED" ∨ e_type e = "DELETED") ∧
  e_file e = Path_name (e_path e).
Proof.
  unfold appended. rewrite list_elem_of_omap. intros (n & _ & He).
  apply entry_of_shape in He as (Ht & Hf & _). split; [|done].
  rewrite Ht. destruct (n_kind n); cbn; tauto.
Qed.

Lemma elem_of_drop_inv {A} (x : A) (n : nat) (l : list A) : x ∈ drop n l → x ∈ l.
Proof. intros Hx. rewrite <- (take_drop n l). apply elem_of_app. by right. Qed.

Lemma lastn_lastn {A} (l : list A) (a b : nat) :
  (a ≤ b)%nat →
  drop (length (drop (length l - b) l) - a) (drop (length l - b) l)
  = drop (length l - a) l.
Proof.
  intros Hab. rewrite length_drop, drop_drop. f_equal. lia.
Qed.

Lemma count_types_sum (l : list log_entry) :
  (∀ e, e ∈ l → e_type e = "MODIFIED" ∨ e_type e = "CREATED" ∨ e_type e = "DELETED") →
  (length (List.filter (λ e, String.eqb (e_type e) "MODIFIED") l) +
   length (List.filter (λ e, String.eqb (e_type e) "CREATED") l) +
   length (List.filter (λ e, String.eqb (e_type e) "DELETED") l) = length l)%nat.
Proof.
  induction l as [|e l IH]; intros Hl; [done|].
  cbn [List.filter length].
  assert (IH' := IH (λ e' He', Hl e' (list_elem_of_further _ _ _ He'))).
  destruct (Hl e (list_elem_of_here _ _)) as [Ht | [Ht | Ht]]; rewrite Ht; cbn; lia.
Qed.

Lemma event_row_columns (e : log_entry) :
  row_time (event_row e) = e_time e ∧ row_file (event_row e) = e_file e ∧
  row_event (event_row e) = e_type e.
Proof.
  unfold event_row.
  destruct (String.eqb (e_type e) "MODIFIED"), (String.eqb (e_type e) "CREATED"); done.
Qed.



End LiveDisplayFacts.

Section LiveDisplayExamples.
Import LiveMonitor LiveDisplay.



End LiveDisplayExamples.

(* ================================================================== *)
(** * Properties of the engine's report                                *)
(* ================================================================== *)

Section ReportingEngineFacts.
Import Agent ReportingEngine.
Context `{Externals}.

Lemma rows_of_app (a b : list renderable) : rows_of (a ++ b) = rows_of a ++ rows_of b.
Proof. unfold rows_of. apply bind_app. Qed.

Lemma rows_of_print_table (title status : string) (paths : list string) :
  rows_of (print_table title status paths) = (λ p, (p, status)) <$> paths.
Proof. destruct paths; [done|]. unfold rows_of. cbn. by rewrite app_nil_r. Qed.

Lemma print_table_not_empty (title status title' : string) (paths : list string) :
  Table title' [] ∉ print_table title status paths.
Proof.
  destruct paths; cbn; [apply not_elem_of_nil|].
  by intros [=]%list_elem_of_singleton.
Qed.

Lemma total_zero (results : report) :
  ((length (report_get results "MODIFIED") + length (report_get results "CREATED") +
    length (report_get results "DELETED") =? 0)%nat = true) ↔
  report_get results "MODIFIED" = [] ∧ report_get results "CREATED" = [] ∧
  report_get results "DELETED" = [].
Proof. rewrite Nat.eqb_eq, <- !length_zero_iff_nil. lia. Qed.



End ReportingEngineFacts.

Section ReportingEngineExamples.
Import Agent ReportingEngine.


End ReportingEngineExamples.

(* ================================================================== *)
(** * Properties of [main]                                             *)
(* ================================================================== *)

Section MainFacts.
Import Agent AgentMain.
Context `{Externals} `{Engines}.

(** [save_baseline] either writes the file and says so, or fails on a path
    that cannot be written. *)
Lemma save_baseline_cases (filepath : string) (data : gmap string FileRecord)
    (w : world) :
  let text := json_dump 4 (asdict <$> data) in
  (∃ keep_readable,
     save_baseline filepath data w =
     ({| fs := <[filepath := File {| readable := keep_readable; writable := true;
                                     content := text; st_mtime := clock w |}]> (fs w);
         console := console w ++ [BaselineSaved filepath (Z.of_nat (String.length text))];
         clock := clock w; calls := calls w |}, Ok tt) ∧
     ((fs w !! filepath = None ∧ keep_readable = true) ∨
      (∃ f, fs w !! filepath = Some (File f) ∧ writable f = true ∧
            keep_readable = readable f))) ∨
  (∃ cause,
     save_baseline filepath data w =
     (with_console w [BaselineWriteFailed cause],
      Raise (Exception ("Failed to write baseline to " +:+ filepath) cause)) ∧
     is_IOError cause = true ∧
     (fs w !! filepath = Some Dir ∨
      ∃ f, fs w !! filepath = Some (File f) ∧ writable f = false)).
Proof.
  cbn zeta.
  destruct (fs w !! filepath) as [[f|]|] eqn:Hf; [destruct (writable f) eqn:Hw|..].
  - left. exists (readable f). split; [|right; by exists f].
    apply save_baseline_writes. right. by exists f.
  - right. unfold save_baseline, try_except, write_file, mbind, io_bind.
    rewrite Hf, Hw. eexists. split; [reflexivity|]. split; [done|]. right. by exists f.
  - right. unfold save_baseline, try_except, write_file, mbind, io_bind.
    rewrite Hf. eexists. split; [reflexivity|]. split; [done|]. by left.
  - left. exists true. split; [|by left]. apply save_baseline_writes. by left.
Qed.

(** The [try] block of the check flow never returns, whatever the engines
    do. *)
Lemma check_try_raises (a : args) (w0 w' : world) (r : result unit) :
  check_try a w0 = (w', r) → ∃ e, r = Raise e.
Proof.
  unfold check_try, mbind, io_bind.
  destruct (load_baseline _ w0) as [w1 [old|e]]; [|intros [= <- <-]; by eexists].
  destruct (falsy old); [cbn; intros [= <- <-]; by eexists|]. cbn.
  destruct (get_file_list _ _) as [w2 [files|e]]; [|intros [= <- <-]; by eexists]. cbn.
  destruct (create_baseline _ _) as [w3 [raw|e]]; [|intros [= <- <-]; by eexists]. cbn.
  destruct (compare_baselines _ _ _) as [w4 [results|e]]; [|intros [= <- <-]; by eexists].
  destruct (report_integrity_results _ _ w4) as [w5 [is_secure|e]];
    cbn; intros [= <- <-]; by eexists.
Qed.

Lemma check_branch_raises (a : args) (w0 w' : world) (r : result unit) :
  try_except (check_try a) check_except w0 = (w', r) → ∃ e, r = Raise e.
Proof.
  unfold try_except. destruct (check_try a w0) as [w1 r1] eqn:Htry.
  destruct (check_try_raises _ _ _ _ Htry) as [e ->].
  unfold check_except. destruct (is_Exception e).
  - unfold mbind, io_bind. cbn. intros [= <- <-]. by eexists.
  - intros [= <- <-]. by eexists.
Qed.

(** With [--check] and without [--init], [main] is the check flow. *)
Lemma main_check_branch (a : args) (s : state) :
  main (Parsed false true a) s =
  let '(w', r) := main_check a (base s) in ({| base := w'; extra := extra s |}, r).
Proof.
  rewrite main_check_unfold.
  unfold main, after_header, lift, print, mbind, xio_bind, io_bind. simpl.
  rewrite with_console_app. simpl.
  destruct (try_except _ _ _) as [w1 [[]|e]]; reflexivity.
Qed.

(** X23.  [main] returns normally, which ends the process with status 0,
    in two cases only: after an initialisation that saved the baseline, or
    when neither [--init] nor [--check] is given.  Its last line is then
    the shutdown message; after an initialisation the line before it is
    the success panel and the baseline file holds the dump of the data the
    engine returned.  A check never returns: whatever the engines do, it
    ends in an exception, so in check mode the shutdown message is never
    printed by [main]. *)
Theorem main_returns_normally (v : argv) (s s' : state) :
  main v s = (s', Ok tt) →
  ∃ init check a pre,
    v = Parsed init check a ∧
    console (base s') = pre ++ [Shutdown] ∧
    if init
    then ∃ data f,
           last (extra s') = Some (length pre, InitComplete (size data) (baseline a)) ∧
           fs (base s') !! baseline a = Some (File f) ∧
           content f = json_dump 4 (asdict <$> data)
    else check = false ∧ base s' = with_console (base s) [Banner; Shutdown] ∧
         extra s' = extra s.
Proof.
  destruct v as [|init check a].
  { unfold main, lift, xprint, sys_exit, raise, print, mbind, xio_bind. cbn.
    intros [=]. }
  intros Hmain. exists init, check, a.
  destruct init; [|destruct check].
  - unfold main, init_try, init_except, xtry_except, lift, xprint, print, record_call,
      sys_exit, raise, mbind, xio_bind, mret, xio_ret in Hmain.
    simpl in Hmain.
    match type of Hmain with context [get_file_list ?c ?w] =>
      destruct (get_file_list c w) as [w2 [files|e]] end; simpl in Hmain;
      [|by destruct (is_Exception e)].
    destruct (bool_decide (files = [])); simpl in Hmain; [done|].
    match type of Hmain with context [create_baseline ?c ?w] =>
      destruct (create_baseline c w) as [w3 [data|e]] end; simpl in Hmain;
      [|by destruct (is_Exception e)].
    destruct (save_baseline_cases (baseline a) data w3)
      as [(keep & Hs & _)|(cause & Hs & _)]; rewrite Hs in Hmain; simpl in Hmain;
      [|done].
    injection Hmain as <-. simpl. eexists. split; [done|]. split; [reflexivity|].
    exists data. eexists. split; [|split; [apply lookup_insert_eq|reflexivity]].
    by rewrite last_snoc.
  - exfalso. rewrite main_check_branch, main_check_unfold in Hmain.
    destruct (try_except _ _ _) as [w1 r1] eqn:Htry.
    destruct (check_branch_raises _ _ _ _ Htry) as [e ->]. done.
  - unfold main, lift, print, mbind, xio_bind, mret, xio_ret in Hmain.
    simpl in Hmain. injection Hmain as <-.
    exists (console (base s) ++ [Banner]). split; [done|]. split; [done|].
    split; [done|]. simpl. split; [|done]. apply with_console_app.
Qed.

(** The initialisation up to the call of [save_baseline], when the files
    are listed and hashed. *)
Lemma main_init_run (check : bool) (a : args) (s : state) (files : list string)
    (w2 w3 : world) (data : gmap string FileRecord) :
  files ≠ [] →
  get_file_list (config a) (init_entered a s) = (w2, Ok files) →
  create_baseline files (hashing_entered files w2) = (w3, Ok data) →
  let before_save :=
    (extra s ++ [(S (length (console (base s))),
                  InitModeHeader (config a) (baseline a))])
    ++ [(S (length (console w2)), StartingSnapshot)]
    ++ [(length (console w3), BaselineCreationComplete (size data))] in
  main (Parsed true check a) s =
  match save_baseline (baseline a) data w3 with
  | (w4, Ok _) =>
      ({| base := with_console w4 [Shutdown];
          extra := before_save
                   ++ [(length (console w4), InitComplete (size data) (baseline a))] |},
       Ok tt)
  | (w4, Raise e) =>
      if is_Exception e
      then ({| base := with_console w4 [FatalError e];
               extra := before_save ++ [(S (length (console w4)), CheckConfigHint)] |},
            Raise (SystemExit 1))
      else ({| base := w4; extra := before_save |}, Raise e)
  end.
Proof.
  intros Hne Hget Hcreate. unfold init_entered in Hget.
  unfold hashing_entered in Hcreate.
  unfold main, init_try, init_except, xtry_except, lift, xprint, print, record_call,
    sys_exit, raise, mbind, xio_bind, mret, xio_ret.
  simpl. rewrite Hget. simpl.
  rewrite bool_decide_eq_false_2 by done. simpl. rewrite Hcreate. simpl.
  destruct (save_baseline _ _ _) as [w4 [[]|e]]; simpl.
  - rewrite !length_app, <- !app_assoc. simpl. repeat f_equal; lia.
  - destruct (is_Exception e); simpl;
      rewrite ?length_app, <- ?app_assoc; simpl; repeat f_equal; lia.
Qed.





End MainFacts.

Section MainExamples.
Import Agent AgentMain ReportingEngine.


Lemma main_returns_normally_witness :
  ∃ s' pre, main (Parsed true false args_demo) state_fresh = (s', Ok tt) ∧
            console (base s') = pre ++ [Shutdown].
Proof.
  assert (Hrun : main (Parsed true false args_demo) state_fresh =
                 ((main (Parsed true false args_demo) state_fresh).1, Ok tt))
    by (vm_compute; reflexivity).
  destruct (main_returns_normally _ _ _ Hrun) as (init & check & a & pre & _ & Hc & _).
  eexists _, pre. split; [exact Hrun | exact Hc].
Defined.





End MainExamples.

(* ================================================================== *)
(** * Properties of the dashboard                                      *)
(* ================================================================== *)

Section DashboardFacts.
Import Agent Dashboard.
Context `{Externals} `{DashboardExternals}.

(** The dashboard's [load_baseline] prints nothing and changes nothing. *)
Lemma dashboard_load_baseline_pure (w w' : world) (r : result snapshot) :
  load_baseline w = (w', r) → w' = w.
Proof.
  unfold load_baseline, path_exists, read_file, json_load_io, mbind, io_bind.
  destruct (bool_decide _); [|by intros [= <- _]].
  destruct (fs w !! baseline_path) as [[f|]|]; [destruct (readable f)|..];
    by intros [= <- _].
Qed.

(** X28.  The dashboard follows the report the agent wrote.  Once
    [report_integrity_results] has returned for the dashboard's report
    path, a path that was free or a file that can be read, and where the
    dashboard's baseline loads, [get_system_stats] returns without changing
    the world: its three counts are the lengths of the three lists of the
    results, a missing key counting as empty, the total is their sum, the
    number of files is the size of the baseline, and the status is SECURE
    exactly when the agent returned True. *)
Theorem dashboard_follows_report (results : report) (w w' : world) (b : bool)
    (data : snapshot) :
  report_roundtrip →
  (fs w !! report_path = None ∨
   ∃ f, fs w !! report_path = Some (File f) ∧ readable f = true) →
  report_integrity_results results report_path w = (w', Ok b) →
  load_baseline w' = (w', Ok data) →
  ∃ st, get_system_stats w' = (w', Ok st) ∧
        total_files st = size data ∧
        modified st = length (report_get results "MODIFIED") ∧
        created st = length (report_get results "CREATED") ∧
        deleted st = length (report_get results "DELETED") ∧
        total_changes st = (modified st + created st + deleted st)%nat ∧
        (status st = "SECURE" ↔ b = true) ∧
        (status st = "BREACH" ↔ b = false).
Proof.
  intros Hrt Hfree Hrep Hload.
  destruct (report_integrity_results_returns _ _ _ _ _ Hrep)
    as ((f & Hf & Hc) & Hb & _).
  assert (Hr : readable f = true).
  { revert Hrep Hf.
    unfold report_integrity_results, write_file, mbind, io_bind.
    destruct Hfree as [->|(f0 & -> & Hr0)]; [|destruct (writable f0); [|by intros [=]]];
      destruct (_ =? _)%nat; cbn; intros [= <- _]; cbn;
      rewrite lookup_insert_eq; by intros [= <-]. }
  unfold get_system_stats, mbind, io_bind. rewrite Hload.
  unfold load_integrity_report, path_exists, read_file, json_load_report_io, now,
    mbind, io_bind.
  rewrite Hf. rewrite bool_decide_eq_true_2 by done. cbn. rewrite Hf, Hr. cbn.
  rewrite Hc, Hrt. cbn.
  eexists. split; [reflexivity|]. cbn. split_and!; try done.
  - destruct (_ =? _)%nat eqn:Ht.
    + split; [intros _|done]. apply Hb. by apply total_zero.
    + split; [done|]. intros Hbt. apply Hb, total_zero in Hbt. congruence.
  - destruct (_ =? _)%nat eqn:Ht.
    + split; [done|]. intros ->. apply total_zero, Hb in Ht. done.
    + split; [intros _|done]. destruct b; [|done].
      assert (Ht' : true = true) by done. apply Hb, total_zero in Ht'. congruence.
Qed.


End DashboardFacts.

Section DashboardExamples.
Import Agent Dashboard.

Lemma demo_report_roundtrip : report_roundtrip.
Proof.
  intros indent r. cbn. unfold demo_load_report, demo_dump.
  rewrite bits_to_pos_to_bits. cbn. by rewrite decode_encode.
Qed.

Lemma dashboard_follows_report_witness :
  ∃ w' st, report_integrity_results report_demo report_path world_dashboard
           = (w', Ok false) ∧
           get_system_stats w' = (w', Ok st) ∧
           total_files st = 2%nat ∧ total_changes st = 3%nat ∧ status st = "BREACH".
Proof.
  assert (Hrep : report_integrity_results report_demo report_path world_dashboard =
                 ((report_integrity_results report_demo report_path world_dashboard).1,
                  Ok false)) by (vm_compute; reflexivity).
  epose proof (dashboard_follows_report report_demo world_dashboard _ false _
                 demo_report_roundtrip) as Hstats.
  edestruct Hstats as (st & Hst & Hfiles & Hm & Hc & Hd & Ht & _ & Hbreach);
    [left; reflexivity | exact Hrep | vm_compute; reflexivity |].
  eexists _, st. split; [exact Hrep|]. split; [exact Hst|].
  split; [rewrite Hfiles; vm_compute; reflexivity|].
  split; [rewrite Ht, Hm, Hc, Hd; reflexivity|]. by apply Hbreach.
Defined.


End DashboardExamples.
